(** * WalletConnector: connection session, retry protocol and error throttle

    A shallow embedding of [src/components/WalletConnector.tsx].  The React
    component is a set of event handlers over a handful of state cells
    ([useState], [useRef]); the asynchronous handler [onConnectWallet] talks
    to the injected wallet provider ([window.cardano]) and suspends at every
    [await].  Handlers are embedded as terms of a small free monad [Proc]
    whose effects are the state cells, the host callbacks and the provider
    calls; two interpreters give the run-to-completion reading ([exec]) and
    the event-loop reading that stops at each [await] ([advance]).

    Conventions of the model:
    - a state setter takes effect when it is called, and a handler reads
      the current cells: React's batching is not modelled, and a handler
      is taken to be called from the latest render; the two queries of the
      imperative handle, which the host may call right after
      [disconnect()], are tied to the render that made them;
    - JavaScript numbers that are network ids and millisecond timestamps
      are integers of [Z];
    - the host callbacks ([onConnect], [onDisconnect], [showError],
      [navigateOnConnect]) and [console.error] are recorded in a trace and
      do not throw;
    - the provider ([window.cardano] and the API objects it hands out) is
      scripted: each call settles with the next outcome of its list;
    - an awaited call and its settlement are one step, taken (and logged)
      when the suspended handler is resumed;
    - the rendered tree is kept as the list of its controls and texts;
      the class names and the [variant] prop, which only choose the
      styling, are left out. *)

From stdpp Require Import base option list gmap strings.
From Stdlib Require Import ZArith String Ascii Lia.

Open Scope string_scope.
Open Scope list_scope.
Open Scope Z_scope.

(** ** JavaScript strings *)

Module JsString.

(** [s.includes(searchString)]. *)
Fixpoint includes (s searchString : string) : bool :=
  String.prefix searchString s ||
  match s with
  | EmptyString => false
  | String _ s' => includes s' searchString
  end.

Definition lower_ascii (c : ascii) : ascii :=
  let n := N_of_ascii c in
  if ((65 <=? n) && (n <=? 90))%N then ascii_of_N (n + 32) else c.

(** [s.toLowerCase()], on the ASCII letters; every other code unit is
    kept.  All the patterns the component searches for are ASCII.  On a
    text that [isAscii] this is the JavaScript function.  On any other text
    the JavaScript function can also produce an ASCII letter from a
    character that is not one (U+212A, the Kelvin sign, becomes [k]), so a
    pattern found in [toLowerCase s] is found by the code as well, and a
    pattern with a [k] that is not found here may still be found by the
    code: a search that fails is relied on for ASCII texts only, or for
    patterns without [k]. *)
Fixpoint toLowerCase (s : string) : string :=
  match s with
  | EmptyString => EmptyString
  | String c s' => String (lower_ascii c) (toLowerCase s')
  end.

(** Every code unit of [s] is below 128. *)
Fixpoint isAscii (s : string) : bool :=
  match s with
  | EmptyString => true
  | String c s' => (N_of_ascii c <? 128)%N && isAscii s'
  end.

End JsString.

(** ** Values crossing the provider boundary *)

(** A thrown value: an [Error] object with its [message], or anything else
    ([error instanceof Error] is false). *)
Inductive Thrown : Type :=
| JsError (message : string)
| NotAnError (description : string).

(** How an awaited promise settles. *)
Inductive Settled (A : Type) : Type :=
| Fulfilled (value : A)
| Rejected (reason : Thrown).
Arguments Fulfilled {A} value.
Arguments Rejected {A} reason.

(** The identity of a [CardanoWalletApi] object handed out by [enable()]. *)
Definition Handle : Type := nat.

Inductive NetworkType : Type := MAINNET | TESTNET.
Inductive ListLayout : Type := dropdown | flex.

(** ** Props and component state *)

(** The props that reach the logic.  The optional callbacks are recorded by
    presence; what they are called with goes to the trace. *)
Record Props : Type := {
  listLayout : ListLayout;
  initiallyOpen : bool;
  networkType : NetworkType;
  onConnect : bool;
  onDisconnect : bool;
  showError : bool;
  navigateOnConnect : bool
}.

Record WalletState : Type := {
  isConnected : bool;
  walletName : option string;
  walletApi : option Handle;
  stakeAddress : option string
}.

Record LastError : Type := {
  message : string;
  timestamp : Z
}.

(** The state cells of the component: four [useState] cells beside
    [walletState], and the [lastErrorRef] ref. *)
Record State : Type := {
  walletState : WalletState;
  showWalletList : bool;
  connectionError : option string;
  isConnecting : bool;
  pendingWallet : option string;
  lastErrorRef : option LastError
}.

Definition setWalletState (v : WalletState) (s : State) : State :=
  {| walletState := v; showWalletList := showWalletList s;
     connectionError := connectionError s; isConnecting := isConnecting s;
     pendingWallet := pendingWallet s; lastErrorRef := lastErrorRef s |}.

Definition setShowWalletList (f : bool -> bool) (s : State) : State :=
  {| walletState := walletState s; showWalletList := f (showWalletList s);
     connectionError := connectionError s; isConnecting := isConnecting s;
     pendingWallet := pendingWallet s; lastErrorRef := lastErrorRef s |}.

Definition setConnectionError (v : option string) (s : State) : State :=
  {| walletState := walletState s; showWalletList := showWalletList s;
     connectionError := v; isConnecting := isConnecting s;
     pendingWallet := pendingWallet s; lastErrorRef := lastErrorRef s |}.

Definition setIsConnecting (v : bool) (s : State) : State :=
  {| walletState := walletState s; showWalletList := showWalletList s;
     connectionError := connectionError s; isConnecting := v;
     pendingWallet := pendingWallet s; lastErrorRef := lastErrorRef s |}.

Definition setPendingWallet (v : option string) (s : State) : State :=
  {| walletState := walletState s; showWalletList := showWalletList s;
     connectionError := connectionError s; isConnecting := isConnecting s;
     pendingWallet := v; lastErrorRef := lastErrorRef s |}.

Definition setLastErrorRef (v : option LastError) (s : State) : State :=
  {| walletState := walletState s; showWalletList := showWalletList s;
     connectionError := connectionError s; isConnecting := isConnecting s;
     pendingWallet := pendingWallet s; lastErrorRef := v |}.

Definition disconnectedWallet : WalletState :=
  {| isConnected := false; walletName := None; walletApi := None;
     stakeAddress := None |}.

(** The state of a freshly mounted component. *)
Definition initialState (props : Props) : State :=
  {| walletState := disconnectedWallet;
     showWalletList := initiallyOpen props;
     connectionError := None;
     isConnecting := false;
     pendingWallet := None;
     lastErrorRef := None |}.

(** ** Observable events *)

(** What the component does to its surroundings, in order: the host
    callbacks, the console, and every provider call with the way it
    settled. *)
Inductive Event : Type :=
| HostOnConnect (walletName : string) (walletApi : Handle)
                (stakeAddress : option string)
| HostNavigateOnConnect (path : string)
| HostOnDisconnect
| HostShowError (message : string)
| ConsoleError (text : string) (detail : option Thrown)
| CalledEnable (walletName : string) (outcome : Settled Handle)
| CalledGetNetworkId (walletApi : Handle) (outcome : Settled Z)
| CalledGetRewardAddresses (walletApi : Handle)
                           (outcome : Settled (list string))
| TimedOut (ms : Z).

(** ** Effects and procedures *)

Inductive Eff : Type -> Type :=
| ReadState : Eff State
| SetState (f : State -> State) : Eff unit
| Emit (e : Event) : Eff unit
| DateNow : Eff Z
| WindowCardano (walletName : string) : Eff bool
| Enable (walletName : string) : Eff (Settled Handle)
| GetNetworkId (walletApi : Handle) : Eff (Settled Z)
| GetRewardAddresses (walletApi : Handle) : Eff (Settled (list string))
| SetTimeout (ms : Z) : Eff unit.

(** The effects a handler [await]s: control returns to the event loop
    before the continuation runs. *)
Definition suspends {X} (e : Eff X) : bool :=
  match e with
  | Enable _ | GetNetworkId _ | GetRewardAddresses _ | SetTimeout _ => true
  | _ => false
  end.

Inductive Proc (A : Type) : Type :=
| Return (a : A)
| Throw (e : Thrown)
| Do {X : Type} (e : Eff X) (k : X -> Proc A).
Arguments Return {A} a.
Arguments Throw {A} e.
Arguments Do {A X} e k.

Fixpoint bind {A B} (p : Proc A) (f : A -> Proc B) : Proc B :=
  match p with
  | Return a => f a
  | Throw e => Throw e
  | Do e k => Do e (fun x => bind (k x) f)
  end.

#[global] Instance Proc_ret : MRet Proc := @Return.
#[global] Instance Proc_bind : MBind Proc := fun A B f p => bind p f.

(** [try { p } catch (error) { h error }]. *)
Fixpoint tryCatch {A} (p : Proc A) (h : Thrown -> Proc A) : Proc A :=
  match p with
  | Return a => Return a
  | Throw e => h e
  | Do e k => Do e (fun x => tryCatch (k x) h)
  end.

(** [try { p } finally { f }]: [f] runs on every way out of [p], an early
    [return] included. *)
Fixpoint tryFinally {A} (p : Proc A) (f : Proc unit) : Proc A :=
  match p with
  | Return a => bind f (fun _ => Return a)
  | Throw e => bind f (fun _ => Throw e)
  | Do e k => Do e (fun x => tryFinally (k x) f)
  end.

Definition perform {X} (e : Eff X) : Proc X := Do e Return.

(** [await promise]: the value when it is fulfilled, a throw when it is
    rejected. *)
Definition await {A} (e : Eff (Settled A)) : Proc A :=
  Do e (fun r => match r with
                 | Fulfilled a => Return a
                 | Rejected err => Throw err
                 end).

(** [await new Promise((resolve) => setTimeout(resolve, ms))]. *)
Definition sleep (ms : Z) : Proc unit := perform (SetTimeout ms).

(** ** The injected environment *)

(** The provider side is scripted: each [enable()] of a registered provider
    and each query of a wallet API object settles with the next outcome of
    its list.  [cardano] is [window.cardano], which may be undefined. *)
Record Provider : Type := {
  enableOutcomes : list (Settled Handle)
}.

Record WalletApi : Type := {
  networkIdOutcomes : list (Settled Z);
  rewardAddressesOutcomes : list (Settled (list string))
}.

Record World : Type := {
  clock : Z;
  cardano : option (gmap string Provider);
  apis : gmap Handle WalletApi
}.

Module World.

(** A call with nothing left in its script is rejected. *)
Definition unanswered : Thrown := JsError "no response".

(** [window.cardano[walletName]] read on an undefined registry or entry
    and then called: a [TypeError]. *)
Definition typeError : Thrown := JsError "TypeError".

Definition lookup (walletName : string) (w : World) : option Provider :=
  match cardano w with
  | Some registry => registry !! walletName
  | None => None
  end.

Definition enable (walletName : string) (w : World)
  : Settled Handle * World :=
  match cardano w with
  | Some registry =>
      match registry !! walletName with
      | Some p =>
          match enableOutcomes p with
          | r :: rest =>
              (r, {| clock := clock w;
                     cardano := Some (<[walletName :=
                                {| enableOutcomes := rest |}]> registry);
                     apis := apis w |})
          | [] => (Rejected unanswered, w)
          end
      | None => (Rejected typeError, w)
      end
  | None => (Rejected typeError, w)
  end.

Definition getNetworkId (h : Handle) (w : World) : Settled Z * World :=
  match apis w !! h with
  | Some api =>
      match networkIdOutcomes api with
      | r :: rest =>
          (r, {| clock := clock w; cardano := cardano w;
                 apis := <[h := {| networkIdOutcomes := rest;
                                   rewardAddressesOutcomes :=
                                     rewardAddressesOutcomes api |}]>
                         (apis w) |})
      | [] => (Rejected unanswered, w)
      end
  | None => (Rejected unanswered, w)
  end.

Definition getRewardAddresses (h : Handle) (w : World)
  : Settled (list string) * World :=
  match apis w !! h with
  | Some api =>
      match rewardAddressesOutcomes api with
      | r :: rest =>
          (r, {| clock := clock w; cardano := cardano w;
                 apis := <[h := {| networkIdOutcomes :=
                                     networkIdOutcomes api;
                                   rewardAddressesOutcomes := rest |}]>
                         (apis w) |})
      | [] => (Rejected unanswered, w)
      end
  | None => (Rejected unanswered, w)
  end.

Definition elapse (ms : Z) (w : World) : World :=
  {| clock := clock w + ms; cardano := cardano w; apis := apis w |}.

End World.

(** ** Interpreters *)

Record Machine : Type := {
  state : State;
  world : World;
  trace : list Event
}.

Definition withState (f : State -> State) (m : Machine) : Machine :=
  {| state := f (state m); world := world m; trace := trace m |}.

Definition logged (ev : Event) (w : World) (m : Machine) : Machine :=
  {| state := state m; world := w; trace := trace m ++ [ev] |}.

Definition handle {X} (e : Eff X) (m : Machine) : X * Machine :=
  match e in Eff X return X * Machine with
  | ReadState => (state m, m)
  | SetState f => (tt, withState f m)
  | Emit ev => (tt, logged ev (world m) m)
  | DateNow => (clock (world m), m)
  | WindowCardano name =>
      (bool_decide (is_Some (World.lookup name (world m))), m)
  | Enable name =>
      let r := World.enable name (world m) in
      (r.1, logged (CalledEnable name r.1) r.2 m)
  | GetNetworkId h =>
      let r := World.getNetworkId h (world m) in
      (r.1, logged (CalledGetNetworkId h r.1) r.2 m)
  | GetRewardAddresses h =>
      let r := World.getRewardAddresses h (world m) in
      (r.1, logged (CalledGetRewardAddresses h r.1) r.2 m)
  | SetTimeout ms =>
      (tt, logged (TimedOut ms) (World.elapse ms (world m)) m)
  end.

(** Run to completion: every awaited call settles at once. *)
Fixpoint exec {A} (p : Proc A) (m : Machine) : Settled A * Machine :=
  match p with
  | Return a => (Fulfilled a, m)
  | Throw e => (Rejected e, m)
  | Do e k => exec (k (handle e m).1) (handle e m).2
  end.

(** Where a handler stands when it gives control back to the event loop. *)
Inductive Paused (A : Type) : Type :=
| Finished (r : Settled A)
| Awaiting {X : Type} (e : Eff X) (k : X -> Proc A).
Arguments Finished {A} r.
Arguments Awaiting {A X} e k.

(** Run the synchronous part: up to the first [await], or to the end. *)
Fixpoint advance {A} (p : Proc A) (m : Machine) : Paused A * Machine :=
  match p with
  | Return a => (Finished (Fulfilled a), m)
  | Throw e => (Finished (Rejected e), m)
  | Do e k =>
      if suspends e then (Awaiting e k, m)
      else advance (k (handle e m).1) (handle e m).2
  end.

(** The awaited call settles and the handler runs on to its next pause. *)
Definition resume {A} (t : Paused A) (m : Machine) : Paused A * Machine :=
  match t with
  | Finished r => (Finished r, m)
  | Awaiting e k => advance (k (handle e m).1) (handle e m).2
  end.

(** Resume a handler [fuel] times with nothing else in between. *)
Fixpoint settle {A} (fuel : nat) (t : Paused A) (m : Machine)
  : Paused A * Machine :=
  match fuel with
  | O => (t, m)
  | S fuel => settle fuel (resume t m).1 (resume t m).2
  end.

(** ** The component *)

Section Component.

Variable props : Props.

Definition isDropdownLayout : bool :=
  match listLayout props with dropdown => true | flex => false end.

(** The [showError] prop; unset, it defaults to [console.error]. *)
Definition showErrorEvent (msg : string) : Event :=
  if showError props then HostShowError msg else ConsoleError msg None.

Definition callShowError (msg : string) : Proc unit :=
  perform (Emit (showErrorEvent msg)).

(** The condition of [showErrorOnce]:
    [!lastError || lastError.message !== message
     || now - lastError.timestamp > 1000]. *)
Definition throttlePasses (lastError : option LastError) (msg : string)
    (now : Z) : bool :=
  match lastError with
  | None => true
  | Some lastError =>
      negb (String.eqb (message lastError) msg)
      || (1000 <? now - timestamp lastError)
  end.

Definition showErrorOnce (msg : string) : Proc unit :=
  now ← perform DateNow;
  s ← perform ReadState;
  let lastError := lastErrorRef s in
  if throttlePasses lastError msg now
  then
    callShowError msg;;
    perform (SetState (setLastErrorRef
               (Some {| message := msg; timestamp := now |})))
  else Return tt.

Definition openWalletList : Proc unit :=
  perform (SetState (setConnectionError None));;
  perform (SetState (setPendingWallet None));;
  if isDropdownLayout
  then perform (SetState (setShowWalletList negb))
  else perform (SetState (setShowWalletList (fun _ => true))).

Definition closeWalletList : Proc unit :=
  s ← perform ReadState;
  if isConnecting s then Return tt
  else
    perform (SetState (setShowWalletList (fun _ => false)));;
    perform (SetState (setConnectionError None));;
    perform (SetState (setPendingWallet None)).

Definition handleSuccessfulConnect (name : string) (api : Handle)
    (stake : option string) : Proc unit :=
  perform (SetState (setConnectionError None));;
  perform (SetState (setShowWalletList (fun _ => false)));;
  perform (SetState (setWalletState
             {| isConnected := true; walletName := Some name;
                walletApi := Some api; stakeAddress := stake |}));;
  if onConnect props
  then perform (Emit (HostOnConnect name api stake))
  else if navigateOnConnect props
  then perform (Emit (HostNavigateOnConnect "/account"))
  else Return tt.

Definition handleDisconnect : Proc unit :=
  perform (SetState (setWalletState disconnectedWallet));;
  if onDisconnect props
  then perform (Emit HostOnDisconnect)
  else Return tt.

Definition expectedNetworkId : Z :=
  match networkType props with MAINNET => 1 | TESTNET => 0 end.

Definition expectedNetwork : string :=
  match networkType props with
  | MAINNET => "Mainnet"
  | TESTNET => "Testnet"
  end.

Definition notInstalledMessage (name : string) : string :=
  name +:+ " wallet is not installed. Please install it from the official website.".

(** The test of the inner [catch]: an [Error] whose message includes one
    of the two spellings. *)
Definition isAccountChanged (error : Thrown) : bool :=
  match error with
  | JsError msg =>
      JsString.includes msg "account changed"
      || JsString.includes msg "Account changed"
  | NotAnError _ => false
  end.

(** The corrective action of the last attempt: a fresh [enable()], a
    pause, and one query on the new object. *)
Definition reEnable (name : string) : Proc (list string) :=
  newWalletApi ← await (Enable name);
  sleep 200;;
  await (GetRewardAddresses newWalletApi).

(** The [while (retries > 0)] loop of [onConnectWallet]; its value is
    [stakeAddresses] on the way out. *)
Fixpoint rewardAddressLoop (retries : nat) (name : string) (api : Handle)
    (stakeAddresses : list string) : Proc (list string) :=
  match retries with
  | O => Return stakeAddresses
  | S retries =>
      Do (GetRewardAddresses api) (fun r =>
        match r with
        | Fulfilled addresses => Return addresses
        | Rejected error =>
            if isAccountChanged error then
              if (0 <? retries)%nat then
                sleep 500;;
                rewardAddressLoop retries name api stakeAddresses
              else reEnable name
            else Throw error
        end)
  end.

(** [stakeAddresses?.[0] || null]: the empty string is falsy. *)
Definition firstOrNull (stakeAddresses : list string) : option string :=
  match stakeAddresses with
  | [] => None
  | a :: _ => if String.eqb a "" then None else Some a
  end.

Definition errorMessageOf (error : Thrown) : string :=
  match error with
  | JsError msg => msg
  | NotAnError _ => "Unknown error"
  end.

Definition onConnectWallet (name : string) : Proc unit :=
  perform (SetState (setIsConnecting true));;
  perform (SetState (setConnectionError None));;
  perform (SetState (setPendingWallet (Some name)));;
  tryFinally
    (tryCatch
       (installed ← perform (WindowCardano name);
        if negb installed then
          showErrorOnce (notInstalledMessage name);;
          perform (SetState (setIsConnecting false));;
          perform (SetState (setPendingWallet None))
        else
          api ← await (Enable name);
          walletNetworkId ← await (GetNetworkId api);
          if negb (walletNetworkId =? expectedNetworkId) then
            showErrorOnce
              ("Network mismatch: This app requires " +:+ expectedNetwork
               +:+ ". Please switch your wallet network.");;
            perform (SetState (setIsConnecting false));;
            perform (SetState (setPendingWallet None))
          else
            sleep 100;;
            stakeAddresses ← rewardAddressLoop 3 name api [];
            handleSuccessfulConnect name api (firstOrNull stakeAddresses))
       (fun error =>
          perform (Emit (ConsoleError
                     ("Error connecting to " +:+ name +:+ ":") (Some error)));;
          perform (SetState (setConnectionError
                     (Some ("Error connecting to " +:+ name +:+ ": "
                            +:+ errorMessageOf error))))))
    (perform (SetState (setIsConnecting false));;
     perform (SetState (setPendingWallet None))).

(** The two tests of [onConnectError], on the lower-cased message. *)
Definition mentionsNotInstalled (errorMessage : string) : bool :=
  JsString.includes errorMessage "not installed"
  || JsString.includes errorMessage "not found"
  || JsString.includes errorMessage "not available"
  || JsString.includes errorMessage "no wallet".

Definition mentionsWrongNetwork (errorMessage : string) : bool :=
  JsString.includes errorMessage "wrong network"
  || JsString.includes errorMessage "network type"
  || JsString.includes errorMessage "mainnet"
  || JsString.includes errorMessage "testnet".

(** The failure callback handed to the connector widget. *)
Definition onConnectError (name : string) (error : string) : Proc unit :=
  perform (Emit (ConsoleError
             ("ConnectWalletList error for " +:+ name +:+ ":")
             (Some (JsError error))));;
  let errorMessage := JsString.toLowerCase error in
  (if mentionsNotInstalled errorMessage
   then showErrorOnce (notInstalledMessage name)
   else if mentionsWrongNetwork errorMessage
   then
     let msg := "Network mismatch: This app requires " +:+ expectedNetwork
                +:+ ". Please switch your wallet to " +:+ expectedNetwork
                +:+ " and try again." in
     showErrorOnce msg;;
     perform (SetState (setConnectionError (Some msg)))
   else
     showErrorOnce ("Error connecting to " +:+ name +:+ ": " +:+ error);;
     perform (SetState (setConnectionError
                (Some ("Error with " +:+ name +:+ ": " +:+ error)))));;
  perform (SetState (setIsConnecting false));;
  perform (SetState (setPendingWallet None)).

(** Whether an element carries [dropdownRef]: each of the four views of a
    disconnected component puts it on one (lines 446, 515, 536 and 551);
    the view of a connected one (lines 408-419) has none, and
    [dropdownRef.current] is [null]. *)
Definition dropdownRefAttached (s : State) : bool :=
  negb (isConnected (walletState s)).

(** The [mousedown] listener, for a click outside the dropdown: the target
    is in no element of the component, so
    [dropdownRef.current && !dropdownRef.current.contains(event.target)]
    is whether [dropdownRef.current] is there. *)
Definition handleClickOutside : Proc unit :=
  s ← perform ReadState;
  if dropdownRefAttached s then
    perform (SetState (setShowWalletList (fun _ => false)));;
    perform (SetState (setConnectionError None))
  else Return tt.

End Component.

(** The state once [onConnectWallet] has run its three opening setters. *)
Definition connecting (name : string) (s : State) : State :=
  setPendingWallet (Some name)
    (setConnectionError None (setIsConnecting true s)).

(** ** The event loop *)

(** What the user, the connector widget or the host can trigger.  Every
    command is accepted in every state: what the rendered buttons allow is
    a subset of this. *)
Inductive Command : Type :=
| OpenWalletList
| CloseWalletList
| ConnectWallet (name : string)
| ConnectError (name : string) (error : string)
| Disconnect
| ClickOutside.

Definition handler (props : Props) (c : Command) : Proc unit :=
  match c with
  | OpenWalletList => openWalletList props
  | CloseWalletList => closeWalletList
  | ConnectWallet name => onConnectWallet props name
  | ConnectError name error => onConnectError props name error
  | Disconnect => handleDisconnect props
  | ClickOutside =>
      (* the listener is installed in the dropdown layout only *)
      if isDropdownLayout props then handleClickOutside else Return tt
  end.

(** The component between two turns of the event loop: its machine and the
    handlers that are suspended on an [await]. *)
Record System : Type := {
  machine : Machine;
  tasks : list (Paused unit)
}.

Definition mount (props : Props) (w : World) : System :=
  {| machine := {| state := initialState props; world := w; trace := [] |};
     tasks := [] |}.

(** A command starts its handler, which runs to its first [await]. *)
Definition dispatch (props : Props) (c : Command) (sys : System) : System :=
  {| machine := (advance (handler props c) (machine sys)).2;
     tasks := tasks sys ++ [(advance (handler props c) (machine sys)).1] |}.

(** The call awaited by the [i]th handler settles and the handler runs on. *)
Definition wake (i : nat) (sys : System) : System :=
  match tasks sys !! i with
  | Some t =>
      {| machine := (resume t (machine sys)).2;
         tasks := <[i := (resume t (machine sys)).1]> (tasks sys) |}
  | None => sys
  end.

(** The environment changes on its own: time passes, the user reconfigures
    the wallet extension. *)
Definition drift (w : World) (sys : System) : System :=
  {| machine := {| state := state (machine sys); world := w;
                   trace := trace (machine sys) |};
     tasks := tasks sys |}.

(** One turn of the event loop. *)
Inductive turn (props : Props) : System -> System -> Prop :=
| turn_command (c : Command) (sys : System) :
    turn props sys (dispatch props c sys)
| turn_resume (i : nat) (sys : System) :
    turn props sys (wake i sys)
| turn_world (w : World) (sys : System) :
    turn props sys (drift w sys).

Definition reachable (props : Props) (w : World) (sys : System) : Prop :=
  rtc (turn props) (mount props w) sys.

(** The provider call a suspended handler waits for. *)
Inductive Call : Type :=
| CallEnable (name : string)
| CallGetNetworkId (api : Handle)
| CallGetRewardAddresses (api : Handle)
| CallSetTimeout (ms : Z).

Definition callOf {X} (e : Eff X) : option Call :=
  match e with
  | Enable name => Some (CallEnable name)
  | GetNetworkId h => Some (CallGetNetworkId h)
  | GetRewardAddresses h => Some (CallGetRewardAddresses h)
  | SetTimeout ms => Some (CallSetTimeout ms)
  | _ => None
  end.

Definition awaited {A} (t : Paused A) : option Call :=
  match t with
  | Finished _ => None
  | Awaiting e _ => callOf e
  end.

(** ** The session invariant *)

(** How the fields of [walletState] hang together: the API object and the
    wallet name are there exactly when connected; a stake address only when
    connected. *)
Definition walletConsistent (ws : WalletState) : Prop :=
  (isConnected ws = true <-> is_Some (walletApi ws)) /\
  (isConnected ws = true <-> is_Some (walletName ws)) /\
  (is_Some (stakeAddress ws) -> isConnected ws = true).

(** A procedure all of whose state updates keep [walletConsistent]. *)
Definition keeps (f : State -> State) : Prop :=
  forall s, walletConsistent (walletState s) ->
            walletConsistent (walletState (f s)).

Definition keepsEff {X} (e : Eff X) : Prop :=
  match e with
  | SetState f => keeps f
  | _ => True
  end.

Fixpoint Safe {A} (p : Proc A) : Prop :=
  match p with
  | Return _ => True
  | Throw _ => True
  | Do e k => keepsEff e /\ forall x, Safe (k x)
  end.

Definition SafePaused {A} (t : Paused A) : Prop :=
  match t with
  | Finished _ => True
  | Awaiting e k => keepsEff e /\ forall x, Safe (k x)
  end.

(** The invariant of the event loop: the session is consistent and every
    suspended handler will keep it so. *)
Definition healthy (sys : System) : Prop :=
  walletConsistent (walletState (state (machine sys))) /\
  Forall SafePaused (tasks sys).

(** ** Fixtures *)

Module Fixture.

(** A host that listens to every callback, on the test network. *)
Definition hostProps : Props :=
  {| listLayout := dropdown; initiallyOpen := false;
     networkType := TESTNET; onConnect := true; onDisconnect := true;
     showError := true; navigateOnConnect := false |}.

Definition accountChanged : Settled (list string) :=
  Rejected (JsError "account changed").

(** No provider registered. *)
Definition emptyWorld : World :=
  {| clock := 5000; cardano := Some ∅; apis := ∅ |}.

Definition on (w : World) : Machine :=
  {| state := initialState hostProps; world := w; trace := [] |}.

(** [eternl] answers the first three reward-address queries with
    "account changed"; the object of its second [enable()] answers. *)
Definition flakyWorld : World :=
  {| clock := 5000;
     cardano := Some {[ "eternl" :=
       {| enableOutcomes := [Fulfilled 0%nat; Fulfilled 1%nat] |} ]};
     apis := {[ 0%nat :=
                  {| networkIdOutcomes := [Fulfilled 0];
                     rewardAddressesOutcomes :=
                       [accountChanged; accountChanged; accountChanged] |};
                1%nat :=
                  {| networkIdOutcomes := [];
                     rewardAddressesOutcomes :=
                       [Fulfilled ["stake1abc"]] |} ]} |}.

(** The budget is spent on object 0 and the object of the next
    [enable()] is no better. *)
Definition stubbornWorld : World :=
  {| clock := 5000;
     cardano := Some {[ "eternl" :=
       {| enableOutcomes := [Fulfilled 1%nat] |} ]};
     apis := {[ 0%nat :=
                  {| networkIdOutcomes := [];
                     rewardAddressesOutcomes :=
                       [accountChanged; accountChanged; accountChanged] |};
                1%nat :=
                  {| networkIdOutcomes := [];
                     rewardAddressesOutcomes := [accountChanged] |} ]} |}.

(** [eternl] fails twice, then answers on the same object. *)
Definition settlingWorld : World :=
  {| clock := 5000;
     cardano := Some {[ "eternl" :=
       {| enableOutcomes := [Fulfilled 0%nat] |} ]};
     apis := {[ 0%nat :=
                  {| networkIdOutcomes := [Fulfilled 0];
                     rewardAddressesOutcomes :=
                       [accountChanged; accountChanged;
                        Fulfilled ["stake1abc"]] |} ]} |}.

(** [eternl] rejects with the upper-case spelling. *)
Definition shoutingWorld : World :=
  {| clock := 5000;
     cardano := Some {[ "eternl" :=
       {| enableOutcomes := [Fulfilled 0%nat; Fulfilled 1%nat] |} ]};
     apis := {[ 0%nat :=
                  {| networkIdOutcomes := [Fulfilled 0];
                     rewardAddressesOutcomes :=
                       [Rejected (JsError "ACCOUNT CHANGED");
                        Fulfilled ["stake1abc"]] |} ]} |}.

(** [lace] reports no reward address. *)
Definition noStakeWorld : World :=
  {| clock := 5000;
     cardano := Some {[ "lace" :=
       {| enableOutcomes := [Fulfilled 0%nat] |} ]};
     apis := {[ 0%nat :=
                  {| networkIdOutcomes := [Fulfilled 0];
                     rewardAddressesOutcomes := [Fulfilled []] |} ]} |}.

(** [beta] is on the main network. *)
Definition mainnetWorld : World :=
  {| clock := 5000;
     cardano := Some {[ "beta" :=
       {| enableOutcomes := [Fulfilled 0%nat] |} ]};
     apis := {[ 0%nat :=
                  {| networkIdOutcomes := [Fulfilled 1];
                     rewardAddressesOutcomes :=
                       [Fulfilled ["stake1abc"]] |} ]} |}.

(** Two providers, for a second selection while the first is in flight. *)
Definition twoWallets : World :=
  {| clock := 5000;
     cardano := Some {[ "eternl" :=
                          {| enableOutcomes := [Fulfilled 0%nat] |};
                        "lace" :=
                          {| enableOutcomes := [Fulfilled 1%nat] |} ]};
     apis := {[ 0%nat :=
                  {| networkIdOutcomes := [Fulfilled 0];
                     rewardAddressesOutcomes :=
                       [Fulfilled ["stake1abc"]] |};
                1%nat :=
                  {| networkIdOutcomes := [Fulfilled 0];
                     rewardAddressesOutcomes :=
                       [Fulfilled ["stake1xyz"]] |} ]} |}.

(** A connected session with stake address "stake1abc". *)
Definition connected : Machine :=
  {| state := setWalletState
                {| isConnected := true; walletName := Some "eternl";
                   walletApi := Some 0%nat;
                   stakeAddress := Some "stake1abc" |}
                (initialState hostProps);
     world := emptyWorld;
     trace := [] |}.

End Fixture.

(** ** Counting and framing *)

(** What an entry of the trace is about.  A [console.error] with no detail
    is the default [showError]. *)
Inductive Kind : Type :=
| KConnect
| KDisconnect
| KShowError
| KConsole
| KEnable
| KGetNetworkId
| KGetRewardAddresses
| KTimeout.

Definition kindOfEvent (ev : Event) : Kind :=
  match ev with
  | HostOnConnect _ _ _ => KConnect
  | HostNavigateOnConnect _ => KConnect
  | HostOnDisconnect => KDisconnect
  | HostShowError _ => KShowError
  | ConsoleError _ None => KShowError
  | ConsoleError _ (Some _) => KConsole
  | CalledEnable _ _ => KEnable
  | CalledGetNetworkId _ _ => KGetNetworkId
  | CalledGetRewardAddresses _ _ => KGetRewardAddresses
  | TimedOut _ => KTimeout
  end.

(** The kind of the entry an effect adds to the trace, if it adds one. *)
Definition kindOfEff {X} (e : Eff X) : option Kind :=
  match e with
  | Emit ev => Some (kindOfEvent ev)
  | Enable _ => Some KEnable
  | GetNetworkId _ => Some KGetNetworkId
  | GetRewardAddresses _ => Some KGetRewardAddresses
  | SetTimeout _ => Some KTimeout
  | _ => None
  end.

Definition counted (sel : Kind -> bool) {X} (e : Eff X) : bool :=
  match kindOfEff e with
  | Some k => sel k
  | None => false
  end.

(** The entries of the selected kinds in a stretch of trace. *)
Definition occurrences (sel : Kind -> bool) (evs : list Event) : nat :=
  List.length (filter (fun ev => sel (kindOfEvent ev) = true) evs).

(** On every path through [p], at most [n] effects of the selected kinds. *)
Fixpoint AtMost (sel : Kind -> bool) (n : nat) {A} (p : Proc A) : Prop :=
  match p with
  | Return _ => True
  | Throw _ => True
  | Do e k =>
      if counted sel e
      then match n with
           | O => False
           | S n' => forall x, AtMost sel n' (k x)
           end
      else forall x, AtMost sel n (k x)
  end.

(** Every state update of [p] is one of [P]. *)
Fixpoint Writes (P : (State -> State) -> Prop) {A} (p : Proc A) : Prop :=
  match p with
  | Return _ => True
  | Throw _ => True
  | Do e k =>
      match e with
      | SetState f => P f
      | _ => True
      end /\ forall x, Writes P (k x)
  end.

Definition connectedWallet (name : string) (api : Handle)
    (stake : option string) : WalletState :=
  {| isConnected := true; walletName := Some name; walletApi := Some api;
     stakeAddress := stake |}.

(** Select one kind of trace entry. *)
Definition only (k k' : Kind) : bool :=
  match k, k' with
  | KConnect, KConnect | KDisconnect, KDisconnect
  | KShowError, KShowError | KConsole, KConsole
  | KEnable, KEnable | KGetNetworkId, KGetNetworkId
  | KGetRewardAddresses, KGetRewardAddresses | KTimeout, KTimeout => true
  | _, _ => false
  end.

(** The callbacks of the host: [onConnect] or [navigateOnConnect],
    [onDisconnect], [showError]. *)
Definition hostCallback (k : Kind) : bool :=
  only KConnect k || only KDisconnect k || only KShowError k.

(** The [try] block of [onConnectWallet], on its own. *)
Definition connectAttempt (props : Props) (name : string) : Proc unit :=
  installed ← perform (WindowCardano name);
  if negb installed then
    showErrorOnce props (notInstalledMessage name);;
    perform (SetState (setIsConnecting false));;
    perform (SetState (setPendingWallet None))
  else
    api ← await (Enable name);
    walletNetworkId ← await (GetNetworkId api);
    if negb (walletNetworkId =? expectedNetworkId props) then
      showErrorOnce props
        ("Network mismatch: This app requires " +:+ expectedNetwork props
         +:+ ". Please switch your wallet network.");;
      perform (SetState (setIsConnecting false));;
      perform (SetState (setPendingWallet None))
    else
      sleep 100;;
      stakeAddresses ← rewardAddressLoop 3 name api [];
      handleSuccessfulConnect props name api (firstOrNull stakeAddresses).

(** The [catch] block of [onConnectWallet]. *)
Definition connectFailed (name : string) (error : Thrown) : Proc unit :=
  perform (Emit (ConsoleError
             ("Error connecting to " +:+ name +:+ ":") (Some error)));;
  perform (SetState (setConnectionError
             (Some ("Error connecting to " +:+ name +:+ ": "
                    +:+ errorMessageOf error)))).

(** ** Callers *)

(** The same message reported again and again, [delays] apart. *)
Fixpoint burst (props : Props) (msg : string) (delays : list Z)
  : Proc unit :=
  showErrorOnce props msg;;
  match delays with
  | [] => Return tt
  | d :: rest => sleep d;; burst props msg rest
  end.

Definition totalDelay (delays : list Z) : Z := foldr Z.add 0 delays.

(** ** The imperative handle *)

(** What [useImperativeHandle] gives the host.  The handle is made anew
    by every render; its two queries are closures over the [walletState]
    of that render, [rendered], and do not read the cell again. *)
Module WalletConnectorRef.



Definition isConnected (rendered : State) : Proc bool :=
  Return (isConnected (walletState rendered)).

End WalletConnectorRef.

(** ** The widget's call *)

(** What the connector widget passes as [error].  The parameter is typed
    [Error], which nothing checks when the code runs: the value has a
    string [message], or [error.message.toLowerCase()] is a [TypeError]
    (the value is [null] or [undefined], or its [message] is missing or
    not a string).  [description] is what [console.error] prints of it. *)
Inductive Reported : Type :=
| HasMessage (message : string)
| NoMessage (description : string).

Module Widget.

(** [onConnectError] as the widget calls it. *)
Definition onConnectError (props : Props) (name : string) (error : Reported)
  : Proc unit :=
  match error with
  | HasMessage msg => onConnectError props name msg
  | NoMessage description =>
      perform (Emit (ConsoleError
                 ("ConnectWalletList error for " +:+ name +:+ ":")
                 (Some (NotAnError description))));;
      Throw World.typeError
  end.

End Widget.

(** ** What is rendered *)

(** The props that only choose what is drawn around the controls
    ([variant] picks between two sets of CSS classes and is left out). *)
Record Presentation : Type := {
  showTitle : bool;
  showDescription : bool
}.

(** The controls and texts of the rendered tree, without their styling. *)
Inductive Element : Type :=
| DisconnectButton
| Title
| DescriptionText
| Prompt
| ConnectButton (label : string) (disabled : bool)
| ErrorBanner (text : string)
| ConnectingNote (text : string)
| WalletList
| CloseButton (disabled : bool).

(** A JavaScript string used as a condition: the empty string is falsy. *)
Definition truthy (v : option string) : option string :=
  match v with
  | Some s => if String.eqb s "" then None else Some s
  | None => None
  end.

Definition renderConnectionFeedback (s : State) : list Element :=
  match truthy (connectionError s) with
  | Some e => [ErrorBanner e]
  | None => []
  end ++
  (if isConnecting s then
     match truthy (pendingWallet s) with
     | Some w => [ConnectingNote ("Connecting to " +:+ w +:+ "...")]
     | None => []
     end
   else []).

Definition render (props : Props) (pres : Presentation) (s : State)
  : list Element :=
  if isConnected (walletState s) then [DisconnectButton]
  else if showTitle pres || showDescription pres then
    (if showTitle pres then [Title] else []) ++
    (if showDescription pres then [DescriptionText] else []) ++
    (if isDropdownLayout props then
       ConnectButton (if isConnecting s then "Connecting..." else "Connect")
         (isConnecting s)
       :: (if showWalletList s
           then renderConnectionFeedback s ++ [WalletList] else [])
     else if negb (showWalletList s) then
       [Prompt;
        ConnectButton (if isConnecting s then "Connecting..." else "Connect")
          (isConnecting s)]
     else
       renderConnectionFeedback s ++
       [WalletList; CloseButton (isConnecting s)])
  else if isDropdownLayout props then
    ConnectButton
      (if isConnecting s then "Connecting..." else "Connect Wallet")
      (isConnecting s)
    :: (if showWalletList s then [WalletList] else [])
  else if showWalletList s then [WalletList; CloseButton (isConnecting s)]
  else
    [Prompt;
     ConnectButton
       (if isConnecting s then "Connecting..." else "Connect Wallet")
       (isConnecting s)].

(** ** Invariants between turns *)

(** The update a [SetState] makes. *)
Definition stateStep {X} (e : Eff X) : option (State -> State) :=
  match e with
  | SetState g => Some g
  | _ => None
  end.

(** [I] holds again whenever [p] gives control back: [f] is what [p] has
    done to the state since it was last resumed.  A handler may break [I]
    between two of its own setters as long as it mends it before the next
    [await] or its end. *)
Fixpoint Segments (I : State -> Prop) {A} (p : Proc A)
    (f : State -> State) : Prop :=
  match p with
  | Return _ => forall s, I s -> I (f s)
  | Throw _ => forall s, I s -> I (f s)
  | Do e k =>
      match stateStep e with
      | Some g => forall x, Segments I (k x) (fun s => g (f s))
      | None =>
          if suspends e
          then (forall s, I s -> I (f s)) /\
               forall x, Segments I (k x) (fun s => s)
          else forall x, Segments I (k x) f
      end
  end.

Definition SegmentsPaused (I : State -> Prop) {A} (t : Paused A) : Prop :=
  match t with
  | Finished _ => True
  | Awaiting e k =>
      suspends e = true /\ forall x, Segments I (k x) (fun s => s)
  end.

(** What the two flags and the recorded error have to do with each other
    when no handler is running: a pending wallet and an empty
    [connectionError] go with [isConnecting]. *)
Definition flagsConsistent (s : State) : Prop :=
  (is_Some (pendingWallet s) -> isConnecting s = true) /\
  (isConnecting s = true -> connectionError s = None).


(** ** Further scripted worlds *)

Module Scenario.

(** The user turns the request of [eternl] down. *)
Definition decliningWorld : World :=
  {| clock := 5000;
     cardano := Some {[ "eternl" :=
       {| enableOutcomes := [Rejected (JsError "user declined")] |} ]};
     apis := ∅ |}.

(** [eternl] is locked when it is asked for its reward addresses. *)
Definition lockedWorld : World :=
  {| clock := 5000;
     cardano := Some {[ "eternl" :=
       {| enableOutcomes := [Fulfilled 0%nat] |} ]};
     apis := {[ 0%nat :=
                  {| networkIdOutcomes := [Fulfilled 0];
                     rewardAddressesOutcomes :=
                       [Rejected (JsError "wallet locked")] |} ]} |}.

(** The budget is spent on object 0 and object 1, of the second
    [enable()], is locked. *)
Definition exhaustedWorld : World :=
  {| clock := 5000;
     cardano := Some {[ "eternl" :=
       {| enableOutcomes := [Fulfilled 0%nat; Fulfilled 1%nat] |} ]};
     apis := {[ 0%nat :=
                  {| networkIdOutcomes := [Fulfilled 0];
                     rewardAddressesOutcomes :=
                       [Fixture.accountChanged; Fixture.accountChanged;
                        Fixture.accountChanged] |};
                1%nat :=
                  {| networkIdOutcomes := [];
                     rewardAddressesOutcomes :=
                       [Rejected (JsError "wallet locked")] |} ]} |}.

(** The budget is spent on object 0 and the second [enable()] is turned
    down. *)
Definition revokedWorld : World :=
  {| clock := 5000;
     cardano := Some {[ "eternl" :=
       {| enableOutcomes :=
            [Fulfilled 0%nat; Rejected (JsError "user declined")] |} ]};
     apis := {[ 0%nat :=
                  {| networkIdOutcomes := [Fulfilled 0];
                     rewardAddressesOutcomes :=
                       [Fixture.accountChanged; Fixture.accountChanged;
                        Fixture.accountChanged] |} ]} |}.

(** The list was opened and the user has turned [eternl] down. *)
Definition declined : Machine :=
  (exec (openWalletList Fixture.hostProps;;
         onConnectWallet Fixture.hostProps "eternl")
     (Fixture.on decliningWorld)).2.

(** A card with a title and no description. *)
Definition titled : Presentation :=
  {| showTitle := true; showDescription := false |}.

(** [eternl] was selected and its [enable()] has not answered yet. *)
Definition selecting : System :=
  dispatch Fixture.hostProps (ConnectWallet "eternl")
    (mount Fixture.hostProps Fixture.twoWallets).

End Scenario.
(** * Properties *)

(** ** Interpreter laws *)

Lemma exec_bind {A B} (p : Proc A) (f : A -> Proc B) (m : Machine) :
  exec (bind p f) m =
  match (exec p m).1 with
  | Fulfilled a => exec (f a) (exec p m).2
  | Rejected e => (Rejected e, (exec p m).2)
  end.
Proof.
  revert m; induction p as [a | e | X e k IH]; intros m; simpl; auto.
Qed.

Lemma exec_tryCatch {A} (p : Proc A) (h : Thrown -> Proc A) (m : Machine) :
  exec (tryCatch p h) m =
  match (exec p m).1 with
  | Fulfilled a => (Fulfilled a, (exec p m).2)
  | Rejected e => exec (h e) (exec p m).2
  end.
Proof.
  revert m; induction p as [a | e | X e k IH]; intros m; simpl; auto.
Qed.

Lemma exec_tryFinally {A} (p : Proc A) (f : Proc unit) (m : Machine) :
  exec (tryFinally p f) m =
  match (exec f (exec p m).2).1 with
  | Fulfilled _ => ((exec p m).1, (exec f (exec p m).2).2)
  | Rejected e => (Rejected e, (exec f (exec p m).2).2)
  end.
Proof.
  revert m; induction p as [a | e | X e k IH]; intros m; simpl; auto;
    rewrite exec_bind; destruct (exec f m) as [[[]|] ?]; reflexivity.
Qed.

(** Running a procedure only ever appends to the trace. *)
Lemma exec_trace_extends {A} (p : Proc A) (m : Machine) :
  exists evs, trace (exec p m).2 = trace m ++ evs.
Proof.
  revert m; induction p as [a | e | X e k IH]; intros m; simpl.
  - exists []; by rewrite app_nil_r.
  - exists []; by rewrite app_nil_r.
  - destruct (IH (handle e m).1 (handle e m).2) as [evs ->].
    destruct e; simpl; eauto; try (by exists evs);
      rewrite <- app_assoc; eauto.
Qed.

Lemma exec_bind_ok {A B} (p : Proc A) (f : A -> Proc B) m a m1 :
  exec p m = (Fulfilled a, m1) -> exec (bind p f) m = exec (f a) m1.
Proof. intros H. by rewrite exec_bind, H. Qed.

Lemma exec_bind_fail {A B} (p : Proc A) (f : A -> Proc B) m e m1 :
  exec p m = (Rejected e, m1) -> exec (bind p f) m = (Rejected e, m1).
Proof. intros H. by rewrite exec_bind, H. Qed.

Lemma exec_mbind_ok {A B} (p : Proc A) (f : A -> Proc B) m a m1 :
  exec p m = (Fulfilled a, m1) -> exec (p ≫= f) m = exec (f a) m1.
Proof. apply exec_bind_ok. Qed.

Lemma exec_mbind_fail {A B} (p : Proc A) (f : A -> Proc B) m e m1 :
  exec p m = (Rejected e, m1) -> exec (p ≫= f) m = (Rejected e, m1).
Proof. apply exec_bind_fail. Qed.

Lemma exec_tryCatch_ok {A} (p : Proc A) h m a m1 :
  exec p m = (Fulfilled a, m1) -> exec (tryCatch p h) m = (Fulfilled a, m1).
Proof. intros H. by rewrite exec_tryCatch, H. Qed.

Lemma exec_tryCatch_fail {A} (p : Proc A) h m e m1 :
  exec p m = (Rejected e, m1) -> exec (tryCatch p h) m = exec (h e) m1.
Proof. intros H. by rewrite exec_tryCatch, H. Qed.

Lemma exec_tryFinally_ok {A} (p : Proc A) (f : Proc unit) m r m1 m2 :
  exec p m = (r, m1) -> exec f m1 = (Fulfilled tt, m2) ->
  exec (tryFinally p f) m = (r, m2).
Proof.
  intros H1 H2. rewrite exec_tryFinally, H1. cbn [fst snd]. by rewrite H2.
Qed.

Lemma exec_await {A} (e : Eff (Settled A)) (m : Machine) :
  exec (await e) m = handle e m.
Proof.
  unfold await; cbn [exec].
  destruct (handle e m) as [[a | err] m1]; reflexivity.
Qed.

(** With nothing interleaved, resuming a handler until it finishes gives
    what [exec] computes in one go. *)
Lemma settle_exec {A} (p : Proc A) (m : Machine) :
  exists fuel,
    settle fuel (advance p m).1 (advance p m).2
    = (Finished (exec p m).1, (exec p m).2).
Proof.
  revert m. induction p as [a | e | X e k IH]; intros m.
  - by exists O.
  - by exists O.
  - destruct (IH (handle e m).1 (handle e m).2) as [fuel Hfuel].
    cbn [advance exec]. destruct (suspends e).
    + exists (S fuel). exact Hfuel.
    + exists fuel. exact Hfuel.
Qed.

(** ** Symbolic execution *)

Lemma handle_ReadState m : handle ReadState m = (state m, m).
Proof. reflexivity. Qed.

Lemma handle_SetState f m : handle (SetState f) m = (tt, withState f m).
Proof. reflexivity. Qed.

Lemma handle_Emit ev m : handle (Emit ev) m = (tt, logged ev (world m) m).
Proof. reflexivity. Qed.

Lemma handle_DateNow m : handle DateNow m = (clock (world m), m).
Proof. reflexivity. Qed.

Lemma handle_WindowCardano name m :
  handle (WindowCardano name) m =
  (bool_decide (is_Some (World.lookup name (world m))), m).
Proof. reflexivity. Qed.

(** Symbolic execution: unfold the procedure and run its synchronous
    effects; provider calls stay as [handle] terms to be rewritten. *)
Ltac run :=
  repeat (progress
    (cbn [mbind Proc_bind bind tryCatch tryFinally exec perform await sleep
          fst snd];
     rewrite ?handle_ReadState, ?handle_SetState, ?handle_Emit,
       ?handle_DateNow, ?handle_WindowCardano)).

Lemma handle_enable (m : Machine) (name : string) (p : Provider) r rest :
  World.lookup name (world m) = Some p ->
  enableOutcomes p = r :: rest ->
  exists registry,
  handle (Enable name) m =
  (r, {| state := state m;
         world := {| clock := clock (world m);
                     cardano := Some (<[name := {| enableOutcomes := rest |}]>
                                      registry);
                     apis := apis (world m) |};
         trace := trace m ++ [CalledEnable name r] |}).
Proof.
  unfold World.lookup. intros Hp Hr.
  destruct (cardano (world m)) as [registry |] eqn:Hc; [| done].
  exists registry. simpl. unfold World.enable. rewrite Hc, Hp, Hr.
  reflexivity.
Qed.

Lemma handle_getNetworkId (m : Machine) (h : Handle) (a : WalletApi) r rest :
  apis (world m) !! h = Some a ->
  networkIdOutcomes a = r :: rest ->
  handle (GetNetworkId h) m =
  (r, {| state := state m;
         world := {| clock := clock (world m); cardano := cardano (world m);
                     apis := <[h := {| networkIdOutcomes := rest;
                                       rewardAddressesOutcomes :=
                                         rewardAddressesOutcomes a |}]>
                             (apis (world m)) |};
         trace := trace m ++ [CalledGetNetworkId h r] |}).
Proof.
  intros Ha Hr. simpl. unfold World.getNetworkId. rewrite Ha, Hr.
  reflexivity.
Qed.

Lemma handle_getRewardAddresses (m : Machine) (h : Handle)
    (a : WalletApi) r rest :
  apis (world m) !! h = Some a ->
  rewardAddressesOutcomes a = r :: rest ->
  handle (GetRewardAddresses h) m =
  (r, {| state := state m;
         world := {| clock := clock (world m); cardano := cardano (world m);
                     apis := <[h := {| networkIdOutcomes := networkIdOutcomes a;
                                       rewardAddressesOutcomes := rest |}]>
                             (apis (world m)) |};
         trace := trace m ++ [CalledGetRewardAddresses h r] |}).
Proof.
  intros Ha Hr. simpl. unfold World.getRewardAddresses. rewrite Ha, Hr.
  reflexivity.
Qed.

Lemma handle_enable_logged (m : Machine) (name : string) :
  exists w,
    (handle (Enable name) m).2 =
    {| state := state m; world := w;
       trace := trace m ++ [CalledEnable name (handle (Enable name) m).1] |}.
Proof. simpl; eauto. Qed.

(** Every reward-address query is logged with the outcome it returns and
    leaves the component state alone. *)
Lemma handle_getRewardAddresses_logged (m : Machine) (h : Handle) :
  exists w,
    (handle (GetRewardAddresses h) m).2 =
    {| state := state m; world := w;
       trace := trace m ++
                [CalledGetRewardAddresses h
                   (handle (GetRewardAddresses h) m).1] |}.
Proof. simpl; eauto. Qed.

(** Rewrite the next reward-address query with what the script holds. *)
Ltac query :=
  erewrite handle_getRewardAddresses
    by (cbn [world apis];
        first [eassumption | apply lookup_insert_eq | reflexivity]).

(** ** The error throttle *)

Lemma exec_showErrorOnce (props : Props) (msg : string) (m : Machine) :
  exec (showErrorOnce props msg) m =
  (Fulfilled tt,
   if throttlePasses (lastErrorRef (state m)) msg (clock (world m))
   then {| state := setLastErrorRef
                      (Some {| message := msg; timestamp := clock (world m) |})
                      (state m);
           world := world m;
           trace := trace m ++ [showErrorEvent props msg] |}
   else m).
Proof.
  unfold showErrorOnce. run.
  destruct (throttlePasses _ _ _); unfold callShowError; run; reflexivity.
Qed.

(** C5.  [showErrorOnce msg] at time [now] calls [showError] exactly when
    nothing is remembered, or the remembered message differs from [msg], or
    strictly more than 1000 ms have passed since the remembered timestamp.
    When it does, [showError] (or [console.error], its default) is called
    once with [msg], the remembered pair becomes [(msg, now)] and no other
    cell changes; when it does not, nothing changes at all. *)
Theorem showErrorOnce_throttle (props : Props) (msg : string) (m : Machine) :
  let now := clock (world m) in
  let fresh :=
    match lastErrorRef (state m) with
    | None => True
    | Some lastError =>
        message lastError <> msg \/ 1000 < now - timestamp lastError
    end in
  let r := exec (showErrorOnce props msg) m in
  r.1 = Fulfilled tt /\
  ((fresh /\
    trace r.2 =
      trace m ++
      [if showError props then HostShowError msg else ConsoleError msg None]
    /\
    lastErrorRef (state r.2) = Some {| message := msg; timestamp := now |} /\
    walletState (state r.2) = walletState (state m) /\
    showWalletList (state r.2) = showWalletList (state m) /\
    connectionError (state r.2) = connectionError (state m) /\
    isConnecting (state r.2) = isConnecting (state m) /\
    pendingWallet (state r.2) = pendingWallet (state m) /\
    world r.2 = world m)
   \/
   (~ fresh /\ r.2 = m)).
Proof.
  intros now fresh r; subst now fresh r.
  unfold showErrorOnce, throttlePasses; simpl.
  destruct (lastErrorRef (state m)) as [[lastMsg ts] |] eqn:Hlast; simpl.
  - destruct (String.eqb_spec lastMsg msg) as [-> | Hne]; simpl.
    + destruct (Z.ltb_spec 1000 (clock (world m) - ts)) as [Hlt | Hge].
      * split; [done |]. left. split; [by right |]. by repeat split.
      * split; [done |]. right.
        split; [intros [Hne | Hlt]; [done | lia] | reflexivity].
    + split; [done |]. left. split; [by left |]. by repeat split.
  - split; [done |]. left. by repeat split.
Qed.

(** [showError] is the host's: "X" is shown and remembered at 5000; "X"
    again at once changes nothing. *)
Lemma showErrorOnce_throttle_witness :
  let m0 := Fixture.on Fixture.emptyWorld in
  let m1 := (exec (showErrorOnce Fixture.hostProps "X") m0).2 in
  trace m1 = [HostShowError "X"] /\
  lastErrorRef (state m1) = Some {| message := "X"; timestamp := 5000 |} /\
  (exec (showErrorOnce Fixture.hostProps "X") m1).2 = m1.
Proof.
  split; [| split].
  - destruct (showErrorOnce_throttle Fixture.hostProps "X"
                (Fixture.on Fixture.emptyWorld))
      as [_ [(_ & Ht & _) | [Hno _]]]; [exact Ht | by destruct Hno].
  - destruct (showErrorOnce_throttle Fixture.hostProps "X"
                (Fixture.on Fixture.emptyWorld))
      as [_ [(_ & _ & Hl & _) | [Hno _]]]; [exact Hl | by destruct Hno].
  - destruct (showErrorOnce_throttle Fixture.hostProps "X"
                (exec (showErrorOnce Fixture.hostProps "X")
                   (Fixture.on Fixture.emptyWorld)).2)
      as [_ [([Hne | Hlt] & _) | [_ Hsame]]];
      [by vm_compute in Hne | by vm_compute in Hlt | exact Hsame].
Defined.

Example throttle_repeat_within_window :
  trace (exec (showErrorOnce Fixture.hostProps "X";;
               sleep 1000;;
               showErrorOnce Fixture.hostProps "X")
           (Fixture.on Fixture.emptyWorld)).2
  = [HostShowError "X"; TimedOut 1000].
Proof. reflexivity. Qed.

Example throttle_other_message :
  trace (exec (showErrorOnce Fixture.hostProps "X";;
               showErrorOnce Fixture.hostProps "Y")
           (Fixture.on Fixture.emptyWorld)).2
  = [HostShowError "X"; HostShowError "Y"].
Proof. reflexivity. Qed.

Example throttle_repeat_after_window :
  trace (exec (showErrorOnce Fixture.hostProps "X";;
               sleep 1001;;
               showErrorOnce Fixture.hostProps "X")
           (Fixture.on Fixture.emptyWorld)).2
  = [HostShowError "X"; TimedOut 1001; HostShowError "X"].
Proof. reflexivity. Qed.

(** ** Disconnecting *)

(** C8 as stated fails: [handleDisconnect] has no test of [isConnected].
    On a connected session with stake address "stake1abc", the first call
    clears the four session fields and calls [onDisconnect]; a second call,
    made when the session is no longer connected, calls [onDisconnect]
    again. *)
Lemma disconnect_twice_notifies_twice :
  let m0 := Fixture.connected in
  let m1 := (exec (handleDisconnect Fixture.hostProps) m0).2 in
  let m2 := (exec (handleDisconnect Fixture.hostProps) m1).2 in
  (isConnected (walletState (state m0)) = true /\
   walletName (walletState (state m0)) = Some "eternl" /\
   walletApi (walletState (state m0)) = Some 0%nat /\
   stakeAddress (walletState (state m0)) = Some "stake1abc" /\
   trace m0 = []) /\
  (isConnected (walletState (state m1)) = false /\
   walletName (walletState (state m1)) = None /\
   walletApi (walletState (state m1)) = None /\
   stakeAddress (walletState (state m1)) = None /\
   trace m1 = [HostOnDisconnect]) /\
  (isConnected (walletState (state m2)) = false /\
   trace m2 = [HostOnDisconnect; HostOnDisconnect]).
Proof. vm_compute. repeat split. Qed.

(** C8, amended.  Every call of [handleDisconnect] clears the four session
    fields, leaves the other cells and the provider alone, and calls
    [onDisconnect] (when the host gave one) exactly once, whether or not
    the session was connected; a second call leaves the state as the first
    one left it and calls [onDisconnect] once more. *)
Lemma handleDisconnect_notifies_every_time (props : Props) (m : Machine) :
  let notified := if onDisconnect props then [HostOnDisconnect] else [] in
  let r := exec (handleDisconnect props) m in
  let again := exec (handleDisconnect props) r.2 in
  r.1 = Fulfilled tt /\
  (isConnected (walletState (state r.2)) = false /\
   walletName (walletState (state r.2)) = None /\
   walletApi (walletState (state r.2)) = None /\
   stakeAddress (walletState (state r.2)) = None) /\
  (showWalletList (state r.2) = showWalletList (state m) /\
   connectionError (state r.2) = connectionError (state m) /\
   isConnecting (state r.2) = isConnecting (state m) /\
   pendingWallet (state r.2) = pendingWallet (state m) /\
   lastErrorRef (state r.2) = lastErrorRef (state m) /\
   world r.2 = world m) /\
  trace r.2 = trace m ++ notified /\
  again.1 = Fulfilled tt /\
  state again.2 = state r.2 /\
  trace again.2 = trace m ++ notified ++ notified.
Proof.
  intros notified r again; subst notified r again.
  unfold handleDisconnect; simpl.
  destruct (onDisconnect props); simpl; rewrite <- ?app_assoc, ?app_nil_r;
    by repeat split.
Qed.

(** ** The reward-address loop *)

Section Loop.

(** One turn of the loop, by the outcome of its query. *)
Variables (name : string) (api : Handle).

Lemma loop_success retries acc m addresses m1 :
  handle (GetRewardAddresses api) m = (Fulfilled addresses, m1) ->
  exec (rewardAddressLoop (S retries) name api acc) m
  = (Fulfilled addresses, m1).
Proof. intros H. cbn [rewardAddressLoop exec]. by rewrite H. Qed.

Lemma loop_propagate retries acc m error m1 :
  handle (GetRewardAddresses api) m = (Rejected error, m1) ->
  isAccountChanged error = false ->
  exec (rewardAddressLoop (S retries) name api acc) m
  = (Rejected error, m1).
Proof.
  intros H Hn. cbn [rewardAddressLoop exec]. rewrite H; simpl.
  by rewrite Hn.
Qed.

Lemma loop_retry retries acc m error m1 :
  handle (GetRewardAddresses api) m = (Rejected error, m1) ->
  isAccountChanged error = true ->
  exec (rewardAddressLoop (S (S retries)) name api acc) m
  = exec (rewardAddressLoop (S retries) name api acc)
      (handle (SetTimeout 500) m1).2.
Proof.
  intros H Hy. cbn [rewardAddressLoop exec]. rewrite H.
  cbn [fst snd]. rewrite Hy. reflexivity.
Qed.

Lemma loop_reEnable acc m error m1 :
  handle (GetRewardAddresses api) m = (Rejected error, m1) ->
  isAccountChanged error = true ->
  exec (rewardAddressLoop 1 name api acc) m = exec (reEnable name) m1.
Proof.
  intros H Hy. cbn [rewardAddressLoop exec]. rewrite H.
  cbn [fst snd]. rewrite Hy. reflexivity.
Qed.

End Loop.

Lemma includes_accountChanged (msg : string) :
  JsString.includes msg "account changed" = true ->
  isAccountChanged (JsError msg) = true.
Proof. intros H; simpl; by rewrite H. Qed.

(** The loop opens with a query of the object it was given. *)
Lemma loop_first_event (retries : nat) (name : string) (api : Handle)
    (acc : list string) (m : Machine) :
  exists r evs,
    trace (exec (rewardAddressLoop (S retries) name api acc) m).2 =
    trace m ++ CalledGetRewardAddresses api r :: evs.
Proof.
  cbn [rewardAddressLoop exec].
  destruct (handle_getRewardAddresses_logged m api) as [w Hw].
  match goal with
  | |- context [exec ?q (handle ?e m).2] =>
      destruct (exec_trace_extends q (handle e m).2) as [evs ->]
  end.
  rewrite Hw; cbn [trace]. rewrite <- app_assoc. eauto.
Qed.

Lemma exec_reEnable (name : string) (m m1 : Machine) (newApi : Handle) :
  handle (Enable name) m = (Fulfilled newApi, m1) ->
  exec (reEnable name) m =
  handle (GetRewardAddresses newApi) (handle (SetTimeout 200) m1).2.
Proof.
  intros H. unfold reEnable, mbind, Proc_bind.
  rewrite exec_bind, exec_await, H. cbn [fst snd].
  rewrite exec_bind. cbn [sleep perform exec fst snd].
  apply exec_await.
Qed.

(** Re-enabling opens with an [enable()] of the selected provider. *)
Lemma reEnable_first_event (name : string) (m : Machine) :
  exists r evs,
    trace (exec (reEnable name) m).2 =
    trace m ++ CalledEnable name r :: evs.
Proof.
  unfold reEnable, mbind, Proc_bind. rewrite exec_bind, exec_await.
  destruct (handle_enable_logged m name) as [w Hw].
  destruct (handle (Enable name) m) as [[h | err] m1] eqn:He;
    cbn [fst snd] in *; subst m1.
  - match goal with
    | |- context [exec ?q ?m1] =>
        destruct (exec_trace_extends q m1) as [evs ->]
    end.
    cbn [trace]. rewrite <- app_assoc. eauto.
  - cbn [trace]. eauto.
Qed.

(** Three "account changed" failures in a row use up the budget: the loop
    hands over to [reEnable]. *)
Lemma loop_exhausted (name : string) (api : Handle) (m : Machine)
    (a : WalletApi) (e1 e2 e3 : Thrown) (rest : list (Settled (list string))) :
  apis (world m) !! api = Some a ->
  rewardAddressesOutcomes a =
    Rejected e1 :: Rejected e2 :: Rejected e3 :: rest ->
  isAccountChanged e1 = true ->
  isAccountChanged e2 = true ->
  isAccountChanged e3 = true ->
  exec (rewardAddressLoop 3 name api []) m =
  exec (reEnable name)
    {| state := state m;
       world := {| clock := clock (world m) + 500 + 500;
                   cardano := cardano (world m);
                   apis := <[api := {| networkIdOutcomes := networkIdOutcomes a;
                                       rewardAddressesOutcomes := rest |}]>
                           (apis (world m)) |};
       trace := trace m ++
         [CalledGetRewardAddresses api (Rejected e1); TimedOut 500;
          CalledGetRewardAddresses api (Rejected e2); TimedOut 500;
          CalledGetRewardAddresses api (Rejected e3)] |}.
Proof.
  intros Ha Hr H1 H2 H3.
  erewrite loop_retry; [| query; reflexivity | done].
  erewrite loop_retry; [| query; reflexivity | done].
  erewrite loop_reEnable; [| query; reflexivity | done].
  cbn. rewrite !insert_insert_eq, <- !app_assoc. reflexivity.
Qed.

(** A fresh [enable()] that succeeds is followed by a pause and exactly one
    query on the new object, whose outcome is the outcome of [reEnable]. *)
Lemma reEnable_run (name : string) (m : Machine) (p : Provider)
    (newApi : Handle) (rest : list (Settled Handle)) :
  World.lookup name (world m) = Some p ->
  enableOutcomes p = Fulfilled newApi :: rest ->
  exists registry,
    exec (reEnable name) m =
    handle (GetRewardAddresses newApi)
      {| state := state m;
         world := {| clock := clock (world m) + 200;
                     cardano := Some registry;
                     apis := apis (world m) |};
         trace := trace m ++ [CalledEnable name (Fulfilled newApi);
                              TimedOut 200] |}.
Proof.
  intros Hp He.
  destruct (handle_enable m name p _ _ Hp He) as [registry Hen].
  eexists. erewrite exec_reEnable by exact Hen.
  f_equal. cbn. unfold logged, World.elapse. cbn.
  rewrite <- !app_assoc. reflexivity.
Qed.

(** The recovery path end to end: the budget is used up on the first
    object, and the query on the re-enabled one answers. *)
Lemma loop_recovers (name : string) (api newApi : Handle) (m : Machine)
    (p : Provider) (a a' : WalletApi) (e1 e2 e3 : Thrown)
    (addresses : list string) (restE : list (Settled Handle))
    (rest rest' : list (Settled (list string))) :
  World.lookup name (world m) = Some p ->
  enableOutcomes p = Fulfilled newApi :: restE ->
  apis (world m) !! api = Some a ->
  rewardAddressesOutcomes a =
    Rejected e1 :: Rejected e2 :: Rejected e3 :: rest ->
  isAccountChanged e1 = true ->
  isAccountChanged e2 = true ->
  isAccountChanged e3 = true ->
  newApi <> api ->
  apis (world m) !! newApi = Some a' ->
  rewardAddressesOutcomes a' = Fulfilled addresses :: rest' ->
  exists m',
    exec (rewardAddressLoop 3 name api []) m = (Fulfilled addresses, m') /\
    state m' = state m /\
    trace m' =
      trace m ++
      [CalledGetRewardAddresses api (Rejected e1); TimedOut 500;
       CalledGetRewardAddresses api (Rejected e2); TimedOut 500;
       CalledGetRewardAddresses api (Rejected e3);
       CalledEnable name (Fulfilled newApi); TimedOut 200;
       CalledGetRewardAddresses newApi (Fulfilled addresses)].
Proof.
  intros Hp He Ha Hr H1 H2 H3 Hne Ha' Hr'.
  erewrite loop_exhausted by eauto.
  match goal with
  | |- context [exec (reEnable name) ?m4] =>
      destruct (reEnable_run name m4 p newApi restE Hp He) as [registry ->]
  end.
  erewrite handle_getRewardAddresses; [| | exact Hr'].
  2: { cbn. by rewrite lookup_insert_ne. }
  eexists; split; [reflexivity |]. cbn.
  split; [reflexivity |]. by rewrite <- !app_assoc.
Qed.

(** C3.  When the query of the object fails twice with an "account changed"
    message and then succeeds, the loop returns the addresses of the third
    attempt; its trace is three queries of the same object with two 500 ms
    pauses, and no [enable()]. *)
Theorem fails_twice_then_succeeds (name : string) (api : Handle)
    (m : Machine) (a : WalletApi) (msg1 msg2 : string)
    (addresses : list string) (rest : list (Settled (list string))) :
  apis (world m) !! api = Some a ->
  rewardAddressesOutcomes a =
    Rejected (JsError msg1) :: Rejected (JsError msg2)
    :: Fulfilled addresses :: rest ->
  JsString.includes msg1 "account changed" = true ->
  JsString.includes msg2 "account changed" = true ->
  exists m',
    exec (rewardAddressLoop 3 name api []) m = (Fulfilled addresses, m') /\
    state m' = state m /\
    trace m' =
      trace m ++
      [CalledGetRewardAddresses api (Rejected (JsError msg1)); TimedOut 500;
       CalledGetRewardAddresses api (Rejected (JsError msg2)); TimedOut 500;
       CalledGetRewardAddresses api (Fulfilled addresses)].
Proof.
  intros Ha Hr H1%includes_accountChanged H2%includes_accountChanged.
  eexists. split.
  - erewrite loop_retry; [| query; reflexivity | done].
    erewrite loop_retry; [| query; reflexivity | done].
    erewrite loop_success; [reflexivity |].
    query. reflexivity.
  - split; [reflexivity |]. cbn. by rewrite <- !app_assoc.
Qed.

Lemma fails_twice_then_succeeds_witness :
  exists m',
    exec (rewardAddressLoop 3 "eternl" 0%nat [])
      (Fixture.on Fixture.settlingWorld) = (Fulfilled ["stake1abc"], m') /\
    state m' = initialState Fixture.hostProps /\
    trace m' =
      [CalledGetRewardAddresses 0%nat Fixture.accountChanged; TimedOut 500;
       CalledGetRewardAddresses 0%nat Fixture.accountChanged; TimedOut 500;
       CalledGetRewardAddresses 0%nat (Fulfilled ["stake1abc"])].
Proof.
  apply (fails_twice_then_succeeds "eternl" 0%nat
           (Fixture.on Fixture.settlingWorld)
           {| networkIdOutcomes := [Fulfilled 0];
              rewardAddressesOutcomes :=
                [Fixture.accountChanged; Fixture.accountChanged;
                 Fulfilled ["stake1abc"]] |}
           "account changed" "account changed" ["stake1abc"] []);
    reflexivity.
Defined.

(** C2.  When the first three queries fail with an "account changed"
    message, the loop calls [enable()] exactly once, pauses 200 ms, queries
    the new object exactly once, and returns the outcome [final] of that
    query, fulfilled or rejected, as it is. *)
Theorem always_account_changed (name : string) (api newApi : Handle)
    (m : Machine) (a : WalletApi) (p : Provider) (msg1 msg2 msg3 : string)
    (rest : list (Settled (list string))) (rest' : list (Settled Handle)) :
  apis (world m) !! api = Some a ->
  rewardAddressesOutcomes a =
    Rejected (JsError msg1) :: Rejected (JsError msg2)
    :: Rejected (JsError msg3) :: rest ->
  JsString.includes msg1 "account changed" = true ->
  JsString.includes msg2 "account changed" = true ->
  JsString.includes msg3 "account changed" = true ->
  World.lookup name (world m) = Some p ->
  enableOutcomes p = Fulfilled newApi :: rest' ->
  exists final m',
    exec (rewardAddressLoop 3 name api []) m = (final, m') /\
    state m' = state m /\
    trace m' =
      trace m ++
      [CalledGetRewardAddresses api (Rejected (JsError msg1)); TimedOut 500;
       CalledGetRewardAddresses api (Rejected (JsError msg2)); TimedOut 500;
       CalledGetRewardAddresses api (Rejected (JsError msg3));
       CalledEnable name (Fulfilled newApi); TimedOut 200;
       CalledGetRewardAddresses newApi final].
Proof.
  intros Ha Hr H1%includes_accountChanged H2%includes_accountChanged
    H3%includes_accountChanged Hp He.
  erewrite loop_retry; [| query; reflexivity | done].
  erewrite loop_retry; [| query; reflexivity | done].
  erewrite loop_reEnable; [| query; reflexivity | done].
  match goal with
  | |- context [exec (reEnable name) ?m3] =>
      destruct (handle_enable m3 name p _ _ Hp He) as [registry Hen]
  end.
  erewrite exec_reEnable by exact Hen.
  match goal with
  | |- context [handle (GetRewardAddresses newApi) ?m4] =>
      destruct (handle_getRewardAddresses_logged m4 newApi) as [w Hw];
      destruct (handle (GetRewardAddresses newApi) m4) as [final m'] eqn:Hq
  end.
  exists final, m'. split; [reflexivity |].
  cbn [fst snd] in Hw. subst m'. cbn.
  split; [reflexivity |]. by rewrite <- !app_assoc.
Qed.

Lemma always_account_changed_witness :
  exists final m',
    exec (rewardAddressLoop 3 "eternl" 0%nat [])
      (Fixture.on Fixture.stubbornWorld) = (final, m') /\
    state m' = initialState Fixture.hostProps /\
    trace m' =
      [CalledGetRewardAddresses 0%nat Fixture.accountChanged; TimedOut 500;
       CalledGetRewardAddresses 0%nat Fixture.accountChanged; TimedOut 500;
       CalledGetRewardAddresses 0%nat Fixture.accountChanged;
       CalledEnable "eternl" (Fulfilled 1%nat); TimedOut 200;
       CalledGetRewardAddresses 1%nat final].
Proof.
  apply (always_account_changed "eternl" 0%nat 1%nat
           (Fixture.on Fixture.stubbornWorld)
           {| networkIdOutcomes := [];
              rewardAddressesOutcomes :=
                [Fixture.accountChanged; Fixture.accountChanged;
                 Fixture.accountChanged] |}
           {| enableOutcomes := [Fulfilled 1%nat] |}
           "account changed" "account changed" "account changed" [] []);
    reflexivity.
Defined.

Example stubborn_provider :
  let run := exec (rewardAddressLoop 3 "eternl" 0%nat [])
               (Fixture.on Fixture.stubbornWorld) in
  run.1 = Fixture.accountChanged /\
  trace run.2 =
    [CalledGetRewardAddresses 0%nat Fixture.accountChanged; TimedOut 500;
     CalledGetRewardAddresses 0%nat Fixture.accountChanged; TimedOut 500;
     CalledGetRewardAddresses 0%nat Fixture.accountChanged;
     CalledEnable "eternl" (Fulfilled 1%nat); TimedOut 200;
     CalledGetRewardAddresses 1%nat Fixture.accountChanged].
Proof. vm_compute. auto. Qed.

(** C4 as stated fails: the test of the inner [catch] knows two spellings
    only.  A rejection with "ACCOUNT CHANGED", which does contain "account
    changed" once lower-cased, is rethrown after the first query although
    the script has an answer ready for a second one. *)
Lemma upper_case_account_changed_propagates :
  let run := exec (rewardAddressLoop 3 "eternl" 0%nat [])
               (Fixture.on Fixture.shoutingWorld) in
  JsString.includes (JsString.toLowerCase "ACCOUNT CHANGED") "account changed"
    = true /\
  run.1 = Rejected (JsError "ACCOUNT CHANGED") /\
  trace run.2 =
    [CalledGetRewardAddresses 0%nat (Rejected (JsError "ACCOUNT CHANGED"))].
Proof. vm_compute. auto. Qed.

(** C4, amended.  A rejection is treated as transient exactly when it is
    an [Error] whose message contains "account changed" or "Account
    changed": with attempts left the loop pauses 500 ms and queries the
    same object again, on the last attempt it calls [enable()].  Any other
    rejection is rethrown at once, with no further call. *)
Theorem transient_spellings (retries : nat) (name : string) (api : Handle)
    (m : Machine) (a : WalletApi) (error : Thrown)
    (rest : list (Settled (list string))) :
  apis (world m) !! api = Some a ->
  rewardAddressesOutcomes a = Rejected error :: rest ->
  let run := exec (rewardAddressLoop (S retries) name api []) m in
  let failed := CalledGetRewardAddresses api (Rejected error) in
  let transient :=
    exists msg, error = JsError msg /\
      (JsString.includes msg "account changed" = true \/
       JsString.includes msg "Account changed" = true) in
  (transient ->
   match retries with
   | S _ => exists r evs,
       trace run.2 = trace m ++ failed :: TimedOut 500
                     :: CalledGetRewardAddresses api r :: evs
   | O => exists r evs,
       trace run.2 = trace m ++ failed :: CalledEnable name r :: evs
   end) /\
  (~ transient ->
   run.1 = Rejected error /\ trace run.2 = trace m ++ [failed]).
Proof.
  intros Ha Hr run failed transient; subst run failed transient.
  pose proof (handle_getRewardAddresses m api a _ _ Ha Hr) as Hq.
  split.
  - intros (msg & -> & Hmsg).
    assert (Hy : isAccountChanged (JsError msg) = true).
    { simpl. destruct Hmsg as [-> | ->]; [done | by rewrite orb_true_r]. }
    destruct retries as [| retries].
    + erewrite loop_reEnable by eauto.
      match goal with
      | |- context [exec (reEnable name) ?m1] =>
          destruct (reEnable_first_event name m1) as (r & evs & ->)
      end.
      cbn [trace]. rewrite <- app_assoc. eauto.
    + erewrite loop_retry by eauto.
      match goal with
      | |- context [exec _ ?m1] =>
          destruct (loop_first_event retries name api [] m1)
            as (r & evs & ->)
      end.
      cbn. rewrite <- !app_assoc. eauto.
  - intros Hn.
    assert (Hf : isAccountChanged error = false).
    { destruct error as [msg | d]; [| done]. simpl.
      apply not_true_is_false. intros [H | H]%orb_true_iff;
        apply Hn; eauto. }
    erewrite loop_propagate by eauto. done.
Qed.

Lemma transient_spellings_witness :
  exists r evs,
    trace (exec (rewardAddressLoop 3 "eternl" 0%nat [])
             (Fixture.on Fixture.flakyWorld)).2 =
    [] ++ CalledGetRewardAddresses 0%nat Fixture.accountChanged
       :: TimedOut 500 :: CalledGetRewardAddresses 0%nat r :: evs.
Proof.
  refine (proj1 (transient_spellings 2 "eternl" 0%nat
                   (Fixture.on Fixture.flakyWorld)
                   {| networkIdOutcomes := [Fulfilled 0];
                      rewardAddressesOutcomes :=
                        [Fixture.accountChanged; Fixture.accountChanged;
                         Fixture.accountChanged] |}
                   (JsError "account changed")
                   [Fixture.accountChanged; Fixture.accountChanged]
                   eq_refl eq_refl) _).
  exists "account changed". split; [reflexivity | left; reflexivity].
Defined.

(** ** Negotiation *)

Lemma exec_handleSuccessfulConnect (props : Props) (name : string)
    (api : Handle) (stake : option string) (m : Machine) :
  exec (handleSuccessfulConnect props name api stake) m =
  (Fulfilled tt,
   {| state := setWalletState
                 {| isConnected := true; walletName := Some name;
                    walletApi := Some api; stakeAddress := stake |}
                 (setShowWalletList (fun _ => false)
                    (setConnectionError None (state m)));
      world := world m;
      trace := trace m ++
               (if onConnect props then [HostOnConnect name api stake]
                else if navigateOnConnect props
                then [HostNavigateOnConnect "/account"] else []) |}).
Proof.
  unfold handleSuccessfulConnect. run.
  destruct (onConnect props); [| destruct (navigateOnConnect props)]; run;
    cbn; rewrite ?app_nil_r; reflexivity.
Qed.

Lemma onConnectWallet_body (props : Props) (name : string) (api : Handle)
    (m m1 m2 m3 : Machine) (addresses : list string) :
  is_Some (World.lookup name (world m)) ->
  handle (Enable name) (withState (connecting name) m) = (Fulfilled api, m1) ->
  handle (GetNetworkId api) m1 = (Fulfilled (expectedNetworkId props), m2) ->
  exec (rewardAddressLoop 3 name api []) (handle (SetTimeout 100) m2).2
    = (Fulfilled addresses, m3) ->
  exec (onConnectWallet props name) m =
  (Fulfilled tt,
   {| state := setPendingWallet None (setIsConnecting false
                 (setWalletState
                    {| isConnected := true; walletName := Some name;
                       walletApi := Some api;
                       stakeAddress := firstOrNull addresses |}
                    (setShowWalletList (fun _ => false)
                       (setConnectionError None (state m3)))));
      world := world m3;
      trace := trace m3 ++
               (if onConnect props
                then [HostOnConnect name api (firstOrNull addresses)]
                else if navigateOnConnect props
                then [HostNavigateOnConnect "/account"] else []) |}).
Proof.
  intros Hin He Hn Hl.
  unfold onConnectWallet. run.
  change (withState _ (withState _ (withState _ m)))
    with (withState (connecting name) m).
  erewrite exec_tryFinally_ok; [reflexivity | |].
  - apply exec_tryCatch_ok. run.
    cbn [withState world]. rewrite bool_decide_eq_true_2 by done.
    cbn [negb]. run. rewrite He. run. rewrite Hn. run.
    rewrite Z.eqb_refl. cbn [negb]. run.
    erewrite exec_mbind_ok by exact Hl.
    apply exec_handleSuccessfulConnect.
  - run. reflexivity.
Qed.

(** C10.  When the budget is used up and re-enabling succeeds, the session
    and [onConnect] get the object [api] of the first [enable()], not the
    object [newApi] of the second; only the address list comes from
    [newApi]. *)
Theorem recovered_session_keeps_first_handle (props : Props) (name : string)
    (api newApi : Handle) (m : Machine) (p : Provider) (a a' : WalletApi)
    (msg1 msg2 msg3 : string) (addresses : list string)
    (restE : list (Settled Handle)) (restN : list (Settled Z))
    (rest rest' : list (Settled (list string))) :
  World.lookup name (world m) = Some p ->
  enableOutcomes p = Fulfilled api :: Fulfilled newApi :: restE ->
  apis (world m) !! api = Some a ->
  networkIdOutcomes a = Fulfilled (expectedNetworkId props) :: restN ->
  rewardAddressesOutcomes a =
    Rejected (JsError msg1) :: Rejected (JsError msg2)
    :: Rejected (JsError msg3) :: rest ->
  JsString.includes msg1 "account changed" = true ->
  JsString.includes msg2 "account changed" = true ->
  JsString.includes msg3 "account changed" = true ->
  newApi <> api ->
  apis (world m) !! newApi = Some a' ->
  rewardAddressesOutcomes a' = Fulfilled addresses :: rest' ->
  let m' := (exec (onConnectWallet props name) m).2 in
  walletState (state m') =
    {| isConnected := true; walletName := Some name; walletApi := Some api;
       stakeAddress := firstOrNull addresses |} /\
  trace m' =
    trace m ++
    [CalledEnable name (Fulfilled api);
     CalledGetNetworkId api (Fulfilled (expectedNetworkId props));
     TimedOut 100;
     CalledGetRewardAddresses api (Rejected (JsError msg1)); TimedOut 500;
     CalledGetRewardAddresses api (Rejected (JsError msg2)); TimedOut 500;
     CalledGetRewardAddresses api (Rejected (JsError msg3));
     CalledEnable name (Fulfilled newApi); TimedOut 200;
     CalledGetRewardAddresses newApi (Fulfilled addresses)] ++
    (if onConnect props
     then [HostOnConnect name api (firstOrNull addresses)]
     else if navigateOnConnect props
     then [HostNavigateOnConnect "/account"] else []).
Proof.
  intros Hp He Ha Hn Hr H1%includes_accountChanged H2%includes_accountChanged
    H3%includes_accountChanged Hne Ha' Hr' m'; subst m'.
  destruct (handle_enable (withState (connecting name) m) name p _ _ Hp He)
    as [registry Hen].
  match type of Hen with
  | _ = (_, ?m1) =>
      pose proof (handle_getNetworkId m1 api a _ _ Ha Hn) as Hnet
  end.
  match type of Hnet with
  | _ = (_, ?m2) =>
      destruct (loop_recovers name api newApi (handle (SetTimeout 100) m2).2
                  {| enableOutcomes := Fulfilled newApi :: restE |}
                  {| networkIdOutcomes := restN;
                     rewardAddressesOutcomes := rewardAddressesOutcomes a |}
                  a' (JsError msg1) (JsError msg2) (JsError msg3)
                  addresses restE rest rest')
        as (m3 & Hloop & Hstate & Htrace);
        [cbn; apply lookup_insert_eq | done | cbn; apply lookup_insert_eq
        | exact Hr | done | done | done | done
        | cbn; by rewrite lookup_insert_ne | exact Hr' |]
  end.
  erewrite onConnectWallet_body; [| by rewrite Hp | exact Hen | exact Hnet
                                  | exact Hloop].
  cbn [snd state trace]. rewrite Htrace. cbn.
  split; [reflexivity |]. by rewrite <- !app_assoc.
Qed.

Lemma recovered_session_keeps_first_handle_witness :
  let m' := (exec (onConnectWallet Fixture.hostProps "eternl")
               (Fixture.on Fixture.flakyWorld)).2 in
  walletState (state m') =
    {| isConnected := true; walletName := Some "eternl";
       walletApi := Some 0%nat; stakeAddress := Some "stake1abc" |} /\
  trace m' =
    [] ++
    [CalledEnable "eternl" (Fulfilled 0%nat);
     CalledGetNetworkId 0%nat (Fulfilled 0); TimedOut 100;
     CalledGetRewardAddresses 0%nat Fixture.accountChanged; TimedOut 500;
     CalledGetRewardAddresses 0%nat Fixture.accountChanged; TimedOut 500;
     CalledGetRewardAddresses 0%nat Fixture.accountChanged;
     CalledEnable "eternl" (Fulfilled 1%nat); TimedOut 200;
     CalledGetRewardAddresses 1%nat (Fulfilled ["stake1abc"])] ++
    [HostOnConnect "eternl" 0%nat (Some "stake1abc")].
Proof.
  apply (recovered_session_keeps_first_handle Fixture.hostProps "eternl"
           0%nat 1%nat (Fixture.on Fixture.flakyWorld)
           {| enableOutcomes := [Fulfilled 0%nat; Fulfilled 1%nat] |}
           {| networkIdOutcomes := [Fulfilled 0];
              rewardAddressesOutcomes :=
                [Fixture.accountChanged; Fixture.accountChanged;
                 Fixture.accountChanged] |}
           {| networkIdOutcomes := [];
              rewardAddressesOutcomes := [Fulfilled ["stake1abc"]] |}
           "account changed" "account changed" "account changed"
           ["stake1abc"] [] [] [] []);
    try reflexivity.
  discriminate.
Defined.

(** ** Failure paths *)

(** The provider is not in the registry: the message goes through the
    throttle, the flags are reset, nothing is recorded. *)
Lemma onConnectWallet_notInstalled (props : Props) (name : string)
    (m : Machine) :
  World.lookup name (world m) = None ->
  exec (onConnectWallet props name) m =
  (Fulfilled tt,
   withState
     (fun s => setPendingWallet None (setIsConnecting false
                 (setPendingWallet None (setIsConnecting false s))))
     (exec (showErrorOnce props (notInstalledMessage name))
        (withState (connecting name) m)).2).
Proof.
  intros Hno.
  unfold onConnectWallet. run.
  change (withState _ (withState _ (withState _ m)))
    with (withState (connecting name) m).
  erewrite exec_tryFinally_ok; cycle 1.
  { apply exec_tryCatch_ok. run.
    cbn [withState world]. rewrite Hno.
    rewrite bool_decide_eq_false_2 by (by intros [? ?]).
    cbn [negb].
    erewrite exec_mbind_ok by apply exec_showErrorOnce.
    run. reflexivity. }
  { run. reflexivity. }
  rewrite exec_showErrorOnce. reflexivity.
Qed.

Lemma exec_onConnectError (props : Props) (name error : string)
    (m : Machine) :
  let logged :=
    logged (ConsoleError ("ConnectWalletList error for " +:+ name +:+ ":")
              (Some (JsError error))) (world m) m in
  let errorMessage := JsString.toLowerCase error in
  let mismatch :=
    "Network mismatch: This app requires " +:+ expectedNetwork props
    +:+ ". Please switch your wallet to " +:+ expectedNetwork props
    +:+ " and try again." in
  let reset (s : State) := setPendingWallet None (setIsConnecting false s) in
  exec (onConnectError props name error) m =
  (Fulfilled tt,
   if mentionsNotInstalled errorMessage then
     withState reset
       (exec (showErrorOnce props (notInstalledMessage name)) logged).2
   else if mentionsWrongNetwork errorMessage then
     withState (fun s => reset (setConnectionError (Some mismatch) s))
       (exec (showErrorOnce props mismatch) logged).2
   else
     withState
       (fun s => reset (setConnectionError
                   (Some ("Error with " +:+ name +:+ ": " +:+ error)) s))
       (exec (showErrorOnce props
                ("Error connecting to " +:+ name +:+ ": " +:+ error))
          logged).2).
Proof.
  intros lg errorMessage mismatch reset; subst lg errorMessage reset.
  unfold onConnectError. run.
  destruct (mentionsNotInstalled _); [| destruct (mentionsWrongNetwork _)].
  - erewrite exec_mbind_ok; cycle 1.
    { apply exec_showErrorOnce. }
    run. rewrite exec_showErrorOnce. reflexivity.
  - erewrite exec_mbind_ok; cycle 1.
    { erewrite exec_mbind_ok by apply exec_showErrorOnce. run. reflexivity. }
    run. rewrite exec_showErrorOnce. reflexivity.
  - erewrite exec_mbind_ok; cycle 1.
    { erewrite exec_mbind_ok by apply exec_showErrorOnce. run. reflexivity. }
    run. rewrite exec_showErrorOnce. reflexivity.
Qed.

(** C6 as stated fails: selecting "alpha", absent from the registry,
    shows the message through the throttle and leaves [connectionError]
    empty. *)
Lemma absent_provider_is_not_recorded :
  let m' := (exec (onConnectWallet Fixture.hostProps "alpha")
               (Fixture.on Fixture.emptyWorld)).2 in
  trace m' =
    [HostShowError
       "alpha wallet is not installed. Please install it from the official website."]
  /\ connectionError (state m') = None.
Proof. vm_compute. auto. Qed.

(** C6, amended.  A provider absent from the registry: the "not
    installed" message goes through the throttle to [showError] and
    [connectionError] stays empty.  A failure reported by the widget whose
    message mentions none of the "not installed" phrases: if it mentions
    one of the network phrases, the mismatch message for the configured
    network goes through the throttle and is recorded in
    [connectionError]; if it is an ASCII text that mentions none of them,
    "Error connecting to <name>: <message>" goes through the throttle and
    "Error with <name>: <message>" is recorded.  (The model does not need
    the text to be ASCII; its agreement with JavaScript's [toLowerCase]
    does, where a search has to fail.) *)
Theorem failure_surfacing (props : Props) (name : string) (m : Machine) :
  let shown (msg : string) :=
    if throttlePasses (lastErrorRef (state m)) msg (clock (world m))
    then [if showError props then HostShowError msg
          else ConsoleError msg None]
    else [] in
  let configured :=
    match networkType props with
    | MAINNET => "Mainnet"
    | TESTNET => "Testnet"
    end in
  let mismatch :=
    "Network mismatch: This app requires " +:+ configured
    +:+ ". Please switch your wallet to " +:+ configured
    +:+ " and try again." in
  let logged (error : string) :=
    ConsoleError ("ConnectWalletList error for " +:+ name +:+ ":")
      (Some (JsError error)) in
  (World.lookup name (world m) = None ->
   let m' := (exec (onConnectWallet props name) m).2 in
   trace m' =
     trace m ++
     shown (name +:+ " wallet is not installed. Please install it from the official website.")
   /\
   connectionError (state m') = None /\
   isConnecting (state m') = false) /\
  (forall error : string,
   mentionsNotInstalled (JsString.toLowerCase error) = false ->
   mentionsWrongNetwork (JsString.toLowerCase error) = true ->
   let m' := (exec (onConnectError props name error) m).2 in
   trace m' = trace m ++ logged error :: shown mismatch /\
   connectionError (state m') = Some mismatch /\
   isConnecting (state m') = false) /\
  (forall error : string,
   JsString.isAscii error = true ->
   mentionsNotInstalled (JsString.toLowerCase error) = false ->
   mentionsWrongNetwork (JsString.toLowerCase error) = false ->
   let m' := (exec (onConnectError props name error) m).2 in
   trace m' =
     trace m ++
     logged error
     :: shown ("Error connecting to " +:+ name +:+ ": " +:+ error) /\
   connectionError (state m') =
     Some ("Error with " +:+ name +:+ ": " +:+ error) /\
   isConnecting (state m') = false).
Proof.
  intros shown configured mismatch logged.
  subst shown configured mismatch logged. split; [| split].
  - intros Hno m'; subst m'.
    rewrite onConnectWallet_notInstalled by done.
    rewrite exec_showErrorOnce. cbn [snd withState state world trace].
    unfold notInstalledMessage, showErrorEvent.
    destruct (throttlePasses _ _ _); cbn; rewrite ?app_nil_r; done.
  - intros error Hni Hwn m'; subst m'.
    rewrite exec_onConnectError, Hni, Hwn. cbn [snd].
    rewrite exec_showErrorOnce; cbn [snd logged withState state world trace].
    unfold expectedNetwork, showErrorEvent.
    destruct (throttlePasses _ _ _); cbn; rewrite <- ?app_assoc; done.
  - intros error _ Hni Hwn m'; subst m'.
    rewrite exec_onConnectError, Hni, Hwn. cbn [snd].
    rewrite exec_showErrorOnce; cbn [snd logged withState state world trace].
    unfold showErrorEvent.
    destruct (throttlePasses _ _ _); cbn; rewrite <- ?app_assoc; done.
Qed.

(** The three cases on the test network: "alpha" is absent; the widget
    reports "Wrong network" for "beta"; the widget reports "User declined"
    for "beta". *)
Lemma failure_surfacing_witness :
  let absent := (exec (onConnectWallet Fixture.hostProps "alpha")
                   (Fixture.on Fixture.emptyWorld)).2 in
  let network := (exec (onConnectError Fixture.hostProps "beta"
                          "Wrong network")
                    (Fixture.on Fixture.mainnetWorld)).2 in
  let generic := (exec (onConnectError Fixture.hostProps "beta"
                          "User declined")
                    (Fixture.on Fixture.mainnetWorld)).2 in
  (trace absent =
     [HostShowError
        "alpha wallet is not installed. Please install it from the official website."]
   /\ connectionError (state absent) = None) /\
  (trace network =
     [ConsoleError "ConnectWalletList error for beta:"
        (Some (JsError "Wrong network"));
      HostShowError
        "Network mismatch: This app requires Testnet. Please switch your wallet to Testnet and try again."]
   /\ connectionError (state network) =
       Some "Network mismatch: This app requires Testnet. Please switch your wallet to Testnet and try again.")
  /\
  (trace generic =
     [ConsoleError "ConnectWalletList error for beta:"
        (Some (JsError "User declined"));
      HostShowError "Error connecting to beta: User declined"]
   /\ connectionError (state generic) =
       Some "Error with beta: User declined").
Proof.
  split; [| split].
  - destruct (proj1 (failure_surfacing Fixture.hostProps "alpha"
                       (Fixture.on Fixture.emptyWorld)) eq_refl)
      as (Ht & Hc & _).
    split; [exact Ht | exact Hc].
  - destruct (proj1 (proj2 (failure_surfacing Fixture.hostProps "beta"
                              (Fixture.on Fixture.mainnetWorld)))
                "Wrong network" eq_refl eq_refl)
      as (Ht & Hc & _).
    split; [exact Ht | exact Hc].
  - destruct (proj2 (proj2 (failure_surfacing Fixture.hostProps "beta"
                              (Fixture.on Fixture.mainnetWorld)))
                "User declined" eq_refl eq_refl eq_refl)
      as (Ht & Hc & _).
    split; [exact Ht | exact Hc].
Defined.

(** C7 as stated fails: for a network mismatch on "beta" the two paths
    show different sentences, and only the widget path records one. *)
Lemma wrong_network_texts_differ :
  let internal := (exec (onConnectWallet Fixture.hostProps "beta")
                     (Fixture.on Fixture.mainnetWorld)).2 in
  let widget := (exec (onConnectError Fixture.hostProps "beta" "wrong network")
                   (Fixture.on Fixture.mainnetWorld)).2 in
  trace internal =
    [CalledEnable "beta" (Fulfilled 0%nat);
     CalledGetNetworkId 0%nat (Fulfilled 1);
     HostShowError
       "Network mismatch: This app requires Testnet. Please switch your wallet network."]
  /\ trace widget =
    [ConsoleError "ConnectWalletList error for beta:"
       (Some (JsError "wrong network"));
     HostShowError
       "Network mismatch: This app requires Testnet. Please switch your wallet to Testnet and try again."]
  /\ connectionError (state internal) = None
  /\ connectionError (state widget) =
     Some "Network mismatch: This app requires Testnet. Please switch your wallet to Testnet and try again.".
Proof. vm_compute. auto. Qed.

(** C7, amended.  For the "not installed" condition the two paths agree:
    from the same state they pass the same text, "<name> wallet is not
    installed. Please install it from the official website.", to the
    throttle, so show the same thing and remember the same pair, and
    neither writes [connectionError] (the internal path has cleared it on
    entry). *)
Theorem notInstalled_paths_agree (props : Props) (name error : string)
    (m : Machine) :
  World.lookup name (world m) = None ->
  mentionsNotInstalled (JsString.toLowerCase error) = true ->
  let internal := (exec (onConnectWallet props name) m).2 in
  let widget := (exec (onConnectError props name error) m).2 in
  let text :=
    name +:+ " wallet is not installed. Please install it from the official website." in
  let passes :=
    throttlePasses (lastErrorRef (state m)) text (clock (world m)) in
  let shown :=
    if passes
    then [if showError props then HostShowError text
          else ConsoleError text None]
    else [] in
  let remembered :=
    if passes
    then Some {| message := text; timestamp := clock (world m) |}
    else lastErrorRef (state m) in
  trace internal = trace m ++ shown /\
  trace widget =
    trace m ++
    ConsoleError ("ConnectWalletList error for " +:+ name +:+ ":")
      (Some (JsError error)) :: shown /\
  lastErrorRef (state internal) = remembered /\
  lastErrorRef (state widget) = remembered /\
  connectionError (state internal) = None /\
  connectionError (state widget) = connectionError (state m).
Proof.
  intros Hno Hni internal widget text passes shown remembered.
  subst internal widget text passes shown remembered.
  rewrite onConnectWallet_notInstalled by done.
  rewrite exec_onConnectError, Hni.
  rewrite !exec_showErrorOnce.
  cbn [snd logged withState state world trace connecting].
  unfold notInstalledMessage, showErrorEvent.
  destruct (throttlePasses _ _ _); cbn; rewrite <- ?app_assoc, ?app_nil_r;
    done.
Qed.

(** "alpha" is absent from the registry, and the widget reports
    "Wallet NOT FOUND" for it. *)
Lemma notInstalled_paths_agree_witness :
  let internal := (exec (onConnectWallet Fixture.hostProps "alpha")
                     (Fixture.on Fixture.emptyWorld)).2 in
  let widget := (exec (onConnectError Fixture.hostProps "alpha"
                         "Wallet NOT FOUND")
                   (Fixture.on Fixture.emptyWorld)).2 in
  let text :=
    "alpha wallet is not installed. Please install it from the official website." in
  trace internal = [HostShowError text] /\
  trace widget =
    [ConsoleError "ConnectWalletList error for alpha:"
       (Some (JsError "Wallet NOT FOUND"));
     HostShowError text] /\
  lastErrorRef (state internal) =
    Some {| message := text; timestamp := 5000 |} /\
  lastErrorRef (state widget) =
    Some {| message := text; timestamp := 5000 |} /\
  connectionError (state internal) = None /\
  connectionError (state widget) = None.
Proof.
  exact (notInstalled_paths_agree Fixture.hostProps "alpha"
           "Wallet NOT FOUND" (Fixture.on Fixture.emptyWorld)
           eq_refl eq_refl).
Defined.

(** ** Re-entrancy *)

(** C9 as stated fails: [onConnectWallet] does not read [isConnecting].
    With "eternl" suspended on its [enable()], selecting "lace" overwrites
    [pendingWallet] and goes on to call [enable()] of "lace". *)
Lemma second_selection_while_connecting :
  let first := advance (onConnectWallet Fixture.hostProps "eternl")
                 (Fixture.on Fixture.twoWallets) in
  let second := advance (onConnectWallet Fixture.hostProps "lace") first.2 in
  isConnecting (state first.2) = true /\
  pendingWallet (state first.2) = Some "eternl" /\
  awaited first.1 = Some (CallEnable "eternl") /\
  pendingWallet (state second.2) = Some "lace" /\
  awaited second.1 = Some (CallEnable "lace") /\
  trace (resume second.1 second.2).2 = [CalledEnable "lace" (Fulfilled 1%nat)].
Proof. vm_compute. auto 10. Qed.

(** C9, amended.  While [isConnecting] is set, a further call of
    [onConnectWallet] for a registered provider is not turned away: its
    synchronous part sets [isConnecting], clears [connectionError], sets
    [pendingWallet] to the new name and suspends on [enable()] of that
    provider. *)
Theorem onConnectWallet_unguarded (props : Props) (name : string)
    (m : Machine) :
  isConnecting (state m) = true ->
  is_Some (World.lookup name (world m)) ->
  let started := advance (onConnectWallet props name) m in
  awaited started.1 = Some (CallEnable name) /\
  started.2 = withState (connecting name) m /\
  pendingWallet (state started.2) = Some name.
Proof.
  intros _ Hin started; subst started.
  unfold onConnectWallet.
  cbn [mbind Proc_bind bind tryCatch tryFinally advance perform await
       suspends fst snd].
  rewrite !handle_SetState, handle_WindowCardano. cbn [fst snd].
  rewrite bool_decide_eq_true_2 by done.
  cbn. done.
Qed.

Lemma onConnectWallet_unguarded_witness :
  pendingWallet
    (state (advance (onConnectWallet Fixture.hostProps "lace")
              (advance (onConnectWallet Fixture.hostProps "eternl")
                 (Fixture.on Fixture.twoWallets)).2).2) = Some "lace".
Proof.
  refine (proj2 (proj2 (onConnectWallet_unguarded Fixture.hostProps "lace"
            (advance (onConnectWallet Fixture.hostProps "eternl")
               (Fixture.on Fixture.twoWallets)).2 eq_refl _))).
  vm_compute. eauto.
Defined.

(** ** The session invariant *)

Lemma keeps_same (f : State -> State) :
  (forall s, walletState (f s) = walletState s) -> keeps f.
Proof. intros H s Hs. by rewrite H. Qed.

Lemma keeps_disconnect : keeps (setWalletState disconnectedWallet).
Proof.
  intros s _. unfold walletConsistent; simpl.
  repeat split; try done; intros [? ?]; done.
Qed.

Lemma keeps_connect (name : string) (api : Handle) (stake : option string) :
  keeps (setWalletState
           {| isConnected := true; walletName := Some name;
              walletApi := Some api; stakeAddress := stake |}).
Proof. intros s _. unfold walletConsistent; simpl. naive_solver. Qed.

Lemma Safe_bind {A B} (p : Proc A) (f : A -> Proc B) :
  Safe p -> (forall a, Safe (f a)) -> Safe (bind p f).
Proof.
  intros Hp Hf. induction p as [a | e | X e k IH]; simpl in *; auto.
  destruct Hp as [He Hk]. split; auto.
Qed.

Lemma Safe_mbind {A B} (p : Proc A) (f : A -> Proc B) :
  Safe p -> (forall a, Safe (f a)) -> Safe (p ≫= f).
Proof. apply Safe_bind. Qed.

Lemma Safe_tryCatch {A} (p : Proc A) (h : Thrown -> Proc A) :
  Safe p -> (forall e, Safe (h e)) -> Safe (tryCatch p h).
Proof.
  intros Hp Hh. induction p as [a | e | X e k IH]; simpl in *; auto.
  destruct Hp as [He Hk]. split; auto.
Qed.

Lemma Safe_tryFinally {A} (p : Proc A) (f : Proc unit) :
  Safe p -> Safe f -> Safe (tryFinally p f).
Proof.
  intros Hp Hf. induction p as [a | e | X e k IH]; simpl in *.
  - by apply Safe_bind.
  - by apply Safe_bind.
  - destruct Hp as [He Hk]. split; auto.
Qed.

Lemma Safe_perform {X} (e : Eff X) : keepsEff e -> Safe (perform e).
Proof. intros He; simpl; auto. Qed.

Lemma Safe_await {A} (e : Eff (Settled A)) : keepsEff e -> Safe (await e).
Proof. intros He; simpl; split; [done | by intros [a | err]]. Qed.

(** Walk a handler's syntax: sequencing, branching, [try] blocks. *)
Ltac safe_step :=
  match goal with
  | |- forall _, _ => intros
  | |- True => exact I
  | |- _ /\ _ => split
  | |- Safe (Return _) => exact I
  | |- Safe (Throw _) => exact I
  | |- Safe (_ ≫= _) => apply Safe_mbind
  | |- Safe (bind _ _) => apply Safe_bind
  | |- Safe (tryCatch _ _) => apply Safe_tryCatch
  | |- Safe (tryFinally _ _) => apply Safe_tryFinally
  | |- Safe (perform _) => apply Safe_perform
  | |- Safe (await _) => apply Safe_await
  | |- Safe (sleep _) => apply Safe_perform
  | |- Safe (if ?b then _ else _) => destruct b
  | |- Safe (let _ := _ in _) => cbv zeta
  | |- keepsEff _ => simpl
  | |- keeps (setWalletState disconnectedWallet) => apply keeps_disconnect
  | |- keeps (setWalletState _) => apply keeps_connect
  | |- keeps _ => by apply keeps_same
  end.
Ltac safe := repeat safe_step.

Lemma Safe_showErrorOnce (props : Props) (msg : string) :
  Safe (showErrorOnce props msg).
Proof. unfold showErrorOnce, callShowError. safe. Qed.

Lemma Safe_reEnable (name : string) : Safe (reEnable name).
Proof. unfold reEnable. safe. Qed.

Lemma Safe_rewardAddressLoop (retries : nat) (name : string) (api : Handle)
    (acc : list string) :
  Safe (rewardAddressLoop retries name api acc).
Proof.
  induction retries as [| retries IH]; simpl; [done |].
  split; [done |]. intros [addresses | error]; [done |].
  destruct (isAccountChanged error); [| done].
  destruct (0 <? retries)%nat; [| apply Safe_reEnable].
  split; [done | intros _; apply IH].
Qed.

Lemma Safe_handleSuccessfulConnect (props : Props) (name : string)
    (api : Handle) (stake : option string) :
  Safe (handleSuccessfulConnect props name api stake).
Proof. unfold handleSuccessfulConnect. safe. Qed.

Lemma Safe_handler (props : Props) (c : Command) : Safe (handler props c).
Proof.
  destruct c; cbn [handler].
  - unfold openWalletList. safe.
  - unfold closeWalletList. safe.
  - unfold onConnectWallet. safe;
      first [apply Safe_showErrorOnce | apply Safe_rewardAddressLoop
            | apply Safe_handleSuccessfulConnect].
  - unfold onConnectError. safe; apply Safe_showErrorOnce.
  - unfold handleDisconnect. safe.
  - unfold handleClickOutside. safe.
Qed.

Lemma handle_consistent {X} (e : Eff X) (m : Machine) :
  keepsEff e ->
  walletConsistent (walletState (state m)) ->
  walletConsistent (walletState (state (handle e m).2)).
Proof. destruct e; simpl; auto. Qed.

Lemma advance_safe {A} (p : Proc A) (m : Machine) :
  Safe p ->
  walletConsistent (walletState (state m)) ->
  walletConsistent (walletState (state (advance p m).2)) /\
  SafePaused (advance p m).1.
Proof.
  revert m. induction p as [a | e | X e k IH]; intros m Hp Hm; simpl; auto.
  destruct Hp as [He Hk].
  destruct (suspends e); simpl; [auto |].
  apply IH; [apply Hk | by apply handle_consistent].
Qed.

Lemma resume_safe {A} (t : Paused A) (m : Machine) :
  SafePaused t ->
  walletConsistent (walletState (state m)) ->
  walletConsistent (walletState (state (resume t m).2)) /\
  SafePaused (resume t m).1.
Proof.
  destruct t as [r | X e k]; simpl; [auto |].
  intros [He Hk] Hm.
  apply advance_safe; [apply Hk | by apply handle_consistent].
Qed.

Lemma mount_healthy (props : Props) (w : World) : healthy (mount props w).
Proof.
  split; [| constructor]. unfold walletConsistent; simpl.
  repeat split; try done; intros [? ?]; done.
Qed.

Lemma turn_healthy (props : Props) (sys sys' : System) :
  healthy sys -> turn props sys sys' -> healthy sys'.
Proof.
  intros [Hm Ht] Hturn. destruct Hturn as [c sys | i sys | w sys].
  - destruct (advance_safe (handler props c) (machine sys)
                (Safe_handler props c) Hm) as [Hm' Hp].
    split; [exact Hm' |]. simpl. apply Forall_app. split; [done |].
    by constructor.
  - unfold wake. destruct (tasks sys !! i) as [t |] eqn:Hi; [| by split].
    destruct (resume_safe t (machine sys)
                (proj1 (Forall_lookup _ _) Ht i t Hi) Hm) as [Hm' Hp].
    split; [exact Hm' |]. simpl. by apply Forall_insert.
  - by split.
Qed.

Lemma reachable_healthy (props : Props) (w : World) (sys : System) :
  reachable props w sys -> healthy sys.
Proof.
  unfold reachable. revert sys.
  apply rtc_ind_r; [apply mount_healthy |].
  eauto using turn_healthy.
Qed.

(** C1 as stated fails: "lace" reports an empty list of reward addresses;
    after the negotiation the session is connected, holds the API object,
    and has no stake address. *)
Lemma connected_without_stake_address :
  let sys := wake 0 (wake 0 (wake 0 (wake 0
               (dispatch Fixture.hostProps (ConnectWallet "lace")
                  (mount Fixture.hostProps Fixture.noStakeWorld))))) in
  let ws := walletState (state (machine sys)) in
  trace (machine sys) =
    [CalledEnable "lace" (Fulfilled 0%nat);
     CalledGetNetworkId 0%nat (Fulfilled 0); TimedOut 100;
     CalledGetRewardAddresses 0%nat (Fulfilled []);
     HostOnConnect "lace" 0%nat None] /\
  isConnected ws = true /\
  walletApi ws = Some 0%nat /\
  stakeAddress ws = None.
Proof. vm_compute. auto. Qed.

(** C1, amended.  In every state the event loop can reach, the API object
    is present exactly when the session is connected, and a stake address
    is present only when it is connected. *)
Theorem session_invariant (props : Props) (w : World) (sys : System) :
  reachable props w sys ->
  let ws := walletState (state (machine sys)) in
  (isConnected ws = true <-> is_Some (walletApi ws)) /\
  (is_Some (stakeAddress ws) -> isConnected ws = true).
Proof.
  intros H ws. destruct (reachable_healthy _ _ _ H) as [(Ha & _ & Hs) _].
  split; [exact Ha | exact Hs].
Qed.

Lemma session_invariant_witness :
  let sys := wake 0 (wake 0 (wake 0 (wake 0
               (dispatch Fixture.hostProps (ConnectWallet "lace")
                  (mount Fixture.hostProps Fixture.noStakeWorld))))) in
  let ws := walletState (state (machine sys)) in
  (isConnected ws = true <-> is_Some (walletApi ws)) /\
  (is_Some (stakeAddress ws) -> isConnected ws = true).
Proof.
  apply (session_invariant Fixture.hostProps Fixture.noStakeWorld).
  unfold reachable.
  do 4 (eapply rtc_r; [| apply turn_resume]).
  eapply rtc_r; [| apply turn_command].
  apply rtc_refl.
Defined.

(** * Further properties *)

(** ** Counting and framing *)

Lemma handle_events {X} (e : Eff X) (m : Machine) :
  exists evs,
    trace (handle e m).2 = trace m ++ evs /\
    forall sel, occurrences sel evs = if counted sel e then 1%nat else 0%nat.
Proof.
  destruct e; simpl;
    try (exists []; split; [by rewrite app_nil_r | done]);
    (eexists [_]; split; [reflexivity |]); intros sel;
    unfold occurrences, counted; simpl;
    rewrite filter_cons, filter_nil; case_decide as Hs;
    destruct (sel _); simpl; congruence.
Qed.

Lemma occurrences_nil (sel : Kind -> bool) : occurrences sel [] = 0%nat.
Proof. reflexivity. Qed.

Lemma occurrences_app (sel : Kind -> bool) (l1 l2 : list Event) :
  occurrences sel (l1 ++ l2)
  = (occurrences sel l1 + occurrences sel l2)%nat.
Proof. unfold occurrences. by rewrite filter_app, length_app. Qed.

(** A path bound is a bound on what a run adds to the trace. *)
Lemma exec_AtMost (sel : Kind -> bool) {A} (p : Proc A) (n : nat)
    (m : Machine) :
  AtMost sel n p ->
  exists evs,
    trace (exec p m).2 = trace m ++ evs /\
    (occurrences sel evs <= n)%nat.
Proof.
  revert n m. induction p as [a | e | X e k IH]; intros n m Hp.
  - exists []. split; [by rewrite app_nil_r | rewrite occurrences_nil; lia].
  - exists []. split; [by rewrite app_nil_r | rewrite occurrences_nil; lia].
  - cbn [exec]. destruct (handle_events e m) as (evs0 & Ht & Hc).
    specialize (Hc sel). cbn [AtMost] in Hp.
    destruct (counted sel e).
    + destruct n as [| n']; [done |].
      destruct (IH (handle e m).1 n' (handle e m).2 (Hp _))
        as (evs & Ht' & Hn).
      exists (evs0 ++ evs). split.
      * by rewrite Ht', Ht, app_assoc.
      * rewrite occurrences_app. lia.
    + destruct (IH (handle e m).1 n (handle e m).2 (Hp _))
        as (evs & Ht' & Hn).
      exists (evs0 ++ evs). split.
      * by rewrite Ht', Ht, app_assoc.
      * rewrite occurrences_app. lia.
Qed.

(** A relation that every allowed update extends holds across a run. *)
Lemma exec_Writes (P : (State -> State) -> Prop) (R : State -> State -> Prop)
    {A} (p : Proc A) (m : Machine) :
  (forall s, R s s) ->
  (forall f s s1, P f -> R s s1 -> R s (f s1)) ->
  Writes P p ->
  R (state m) (state (exec p m).2).
Proof.
  intros Hrefl Hstep. generalize (Hrefl (state m)).
  generalize (state m) at 1 3 as s0. revert m.
  induction p as [a | e | X e k IH]; intros m s0 H0 Hp; [done | done |].
  destruct Hp as [He Hk]. cbn [exec]. apply IH; [| apply Hk].
  destruct e; simpl; auto.
Qed.

(** Walk every path of a handler: unfold, introduce what the environment
    answers, split on what the handler tests. *)
Ltac explore :=
  repeat first
    [ progress cbn [AtMost Writes counted kindOfEff kindOfEvent only
                    hostCallback orb
                    bind tryCatch tryFinally mbind Proc_bind perform await
                    sleep rewardAddressLoop reEnable showErrorOnce
                    callShowError showErrorEvent handleSuccessfulConnect
                    Nat.ltb Nat.leb]
    | progress unfold showErrorEvent
    | progress intros
    | match goal with
      | |- _ /\ _ => split
      | |- True => exact I
      | |- context [if ?b then _ else _] =>
          lazymatch b with
          | context [kindOfEvent] => fail
          | _ => destruct b
          end
      | |- context [match ?x with Fulfilled _ => _ | Rejected _ => _ end] =>
          destruct x
      end ].

(** ** Negotiation, whatever the provider answers *)

Lemma onConnectWallet_AtMost (props : Props) (name : string) :
  AtMost (only KEnable) 2 (onConnectWallet props name) /\
  AtMost (only KGetNetworkId) 1 (onConnectWallet props name) /\
  AtMost (only KGetRewardAddresses) 4 (onConnectWallet props name) /\
  AtMost (only KTimeout) 4 (onConnectWallet props name) /\
  AtMost hostCallback 1 (onConnectWallet props name) /\
  AtMost (only KDisconnect) 0 (onConnectWallet props name).
Proof. unfold onConnectWallet. do 5 (split; [explore |]). explore. Qed.

(** X1.  Whatever the provider answers, one run of [onConnectWallet] calls
    [enable()] at most twice, [getNetworkId()] at most once and
    [getRewardAddresses()] at most four times, and sets at most four
    timers. *)
Theorem negotiation_call_budget (props : Props) (name : string)
    (m : Machine) :
  exists evs,
    trace (exec (onConnectWallet props name) m).2 = trace m ++ evs /\
    (occurrences (only KEnable) evs <= 2)%nat /\
    (occurrences (only KGetNetworkId) evs <= 1)%nat /\
    (occurrences (only KGetRewardAddresses) evs <= 4)%nat /\
    (occurrences (only KTimeout) evs <= 4)%nat.
Proof.
  destruct (onConnectWallet_AtMost props name) as (A1 & A2 & A3 & A4 & _).
  destruct (exec_AtMost _ _ _ m A1) as (evs & Ht & H1).
  destruct (exec_AtMost _ _ _ m A2) as (evs2 & Ht2 & H2).
  destruct (exec_AtMost _ _ _ m A3) as (evs3 & Ht3 & H3).
  destruct (exec_AtMost _ _ _ m A4) as (evs4 & Ht4 & H4).
  rewrite Ht in Ht2, Ht3, Ht4.
  apply app_inv_head in Ht2. apply app_inv_head in Ht3.
  apply app_inv_head in Ht4. subst evs2 evs3 evs4.
  by exists evs.
Qed.

(** X2.  Whatever the provider answers, one run of [onConnectWallet]
    calls the host at most once, through [onConnect], [navigateOnConnect]
    or [showError], and never through [onDisconnect]. *)
Theorem negotiation_one_callback (props : Props) (name : string)
    (m : Machine) :
  exists evs,
    trace (exec (onConnectWallet props name) m).2 = trace m ++ evs /\
    (occurrences hostCallback evs <= 1)%nat /\
    occurrences (only KDisconnect) evs = 0%nat.
Proof.
  destruct (onConnectWallet_AtMost props name) as (_ & _ & _ & _ & A5 & A6).
  destruct (exec_AtMost _ _ _ m A5) as (evs & Ht & H1).
  destruct (exec_AtMost _ _ _ m A6) as (evs2 & Ht2 & H2).
  rewrite Ht in Ht2. apply app_inv_head in Ht2. subst evs2.
  exists evs. repeat split; [done | done | lia].
Qed.

(** X3.  Whatever the provider answers, [onConnectWallet] leaves
    [walletState] as it was or sets it to a connected session for the
    wallet that was selected: it never disconnects and never connects
    another wallet. *)
Theorem negotiation_keeps_or_connects (props : Props) (name : string)
    (m : Machine) :
  let ws' := walletState (state (exec (onConnectWallet props name) m).2) in
  ws' = walletState (state m) \/
  exists api stake, ws' = connectedWallet name api stake.
Proof.
  intros ws'; subst ws'.
  apply (exec_Writes
           (fun f => forall s,
              walletState (f s) = walletState s \/
              exists api stake,
                walletState (f s) = connectedWallet name api stake)
           (fun s s' =>
              walletState s' = walletState s \/
              exists api stake,
                walletState s' = connectedWallet name api stake)).
  - by left.
  - intros f s s1 Hf H1. destruct (Hf s1) as [H2 | H2]; [| by right].
    by rewrite H2.
  - unfold onConnectWallet; explore;
      first [by left | right; eexists _, _; reflexivity].
Qed.

(** [onConnectWallet] is its three setters, then the attempt under the
    [catch] and the [finally]. *)
Lemma onConnectWallet_unfold (props : Props) (name : string) :
  onConnectWallet props name =
  (perform (SetState (setIsConnecting true));;
   perform (SetState (setConnectionError None));;
   perform (SetState (setPendingWallet (Some name)));;
   tryFinally
     (tryCatch (connectAttempt props name) (connectFailed name))
     (perform (SetState (setIsConnecting false));;
      perform (SetState (setPendingWallet None)))).
Proof. reflexivity. Qed.

(** The attempt ran to its end. *)
Lemma onConnectWallet_finished (props : Props) (name : string)
    (m m1 : Machine) :
  exec (connectAttempt props name) (withState (connecting name) m)
    = (Fulfilled tt, m1) ->
  exec (onConnectWallet props name) m =
  (Fulfilled tt,
   withState (fun s => setPendingWallet None (setIsConnecting false s)) m1).
Proof.
  intros H. rewrite onConnectWallet_unfold. run.
  change (withState _ (withState _ (withState _ m)))
    with (withState (connecting name) m).
  erewrite exec_tryFinally_ok; [reflexivity | | run; reflexivity].
  by apply exec_tryCatch_ok.
Qed.

(** The attempt threw: the [catch] logs and records the error. *)
Lemma onConnectWallet_caught (props : Props) (name : string)
    (m m1 : Machine) (error : Thrown) :
  exec (connectAttempt props name) (withState (connecting name) m)
    = (Rejected error, m1) ->
  exec (onConnectWallet props name) m =
  (Fulfilled tt,
   {| state := setPendingWallet None (setIsConnecting false
                 (setConnectionError
                    (Some ("Error connecting to " +:+ name +:+ ": "
                           +:+ errorMessageOf error)) (state m1)));
      world := world m1;
      trace := trace m1 ++
               [ConsoleError ("Error connecting to " +:+ name +:+ ":")
                  (Some error)] |}).
Proof.
  intros H. rewrite onConnectWallet_unfold. run.
  change (withState _ (withState _ (withState _ m)))
    with (withState (connecting name) m).
  erewrite exec_tryFinally_ok; cycle 1.
  { erewrite exec_tryCatch_fail by exact H.
    unfold connectFailed. run. reflexivity. }
  { run. reflexivity. }
  reflexivity.
Qed.

(** ** Negotiation, path by path *)

(** The attempt up to the reward-address loop: the provider is there,
    [enable()] hands out [api], and [api] is on the expected network. *)
Lemma connectAttempt_reaches_loop (props : Props) (name : string)
    (api : Handle) (m : Machine) (p : Provider) (a : WalletApi)
    (restE : list (Settled Handle)) (restN : list (Settled Z)) :
  World.lookup name (world m) = Some p ->
  enableOutcomes p = Fulfilled api :: restE ->
  apis (world m) !! api = Some a ->
  networkIdOutcomes a = Fulfilled (expectedNetworkId props) :: restN ->
  exists registry,
    registry !! name = Some {| enableOutcomes := restE |} /\
    exec (connectAttempt props name) m =
    exec (stakeAddresses ← rewardAddressLoop 3 name api [];
          handleSuccessfulConnect props name api (firstOrNull stakeAddresses))
      {| state := state m;
         world := {| clock := clock (world m) + 100;
                     cardano := Some registry;
                     apis := <[api := {| networkIdOutcomes := restN;
                                         rewardAddressesOutcomes :=
                                           rewardAddressesOutcomes a |}]>
                             (apis (world m)) |};
         trace := trace m ++
                  [CalledEnable name (Fulfilled api);
                   CalledGetNetworkId api
                     (Fulfilled (expectedNetworkId props));
                   TimedOut 100] |}.
Proof.
  intros Hp He Ha Hn.
  destruct (handle_enable m name p _ _ Hp He) as [registry Hen].
  exists (<[name := {| enableOutcomes := restE |}]> registry).
  split; [apply lookup_insert_eq |].
  unfold connectAttempt. run.
  rewrite bool_decide_eq_true_2 by (by rewrite Hp). cbn [negb]. run.
  rewrite Hen. run.
  erewrite handle_getNetworkId by eauto. run.
  rewrite Z.eqb_refl. cbn [negb]. run.
  f_equal. cbn. unfold logged, World.elapse. cbn.
  rewrite <- !app_assoc. reflexivity.
Qed.

(** X4.  When the wallet is on another network than the configured one,
    [onConnectWallet] stops after [getNetworkId()]: it asks for no reward
    address and sets no timer, reports the mismatch through the throttle,
    and leaves the session, the list and [connectionError] (cleared at the
    start) alone. *)
Theorem wrong_network_declined (props : Props) (name : string)
    (api : Handle) (m : Machine) (p : Provider) (a : WalletApi)
    (networkId : Z) (restE : list (Settled Handle))
    (restN : list (Settled Z)) :
  World.lookup name (world m) = Some p ->
  enableOutcomes p = Fulfilled api :: restE ->
  apis (world m) !! api = Some a ->
  networkIdOutcomes a = Fulfilled networkId :: restN ->
  networkId <> expectedNetworkId props ->
  let m' := (exec (onConnectWallet props name) m).2 in
  let msg := "Network mismatch: This app requires " +:+ expectedNetwork props
             +:+ ". Please switch your wallet network." in
  walletState (state m') = walletState (state m) /\
  showWalletList (state m') = showWalletList (state m) /\
  connectionError (state m') = None /\
  trace m' =
    trace m ++
    [CalledEnable name (Fulfilled api);
     CalledGetNetworkId api (Fulfilled networkId)] ++
    (if throttlePasses (lastErrorRef (state m)) msg (clock (world m))
     then [showErrorEvent props msg] else []).
Proof.
  intros Hp He Ha Hn Hne m' msg; subst m' msg.
  destruct (handle_enable (withState (connecting name) m) name p _ _ Hp He)
    as [registry Hen].
  erewrite onConnectWallet_finished; cycle 1.
  { unfold connectAttempt. run.
    rewrite bool_decide_eq_true_2 by (by cbn; rewrite Hp). cbn [negb]. run.
    rewrite Hen. run.
    erewrite handle_getNetworkId by eauto. run.
    rewrite (proj2 (Z.eqb_neq _ _) Hne). cbn [negb].
    erewrite exec_mbind_ok by apply exec_showErrorOnce.
    run. reflexivity. }
  cbn [snd withState state world trace connecting].
  destruct (throttlePasses _ _ _); cbn; rewrite <- ?app_assoc, ?app_nil_r;
    done.
Qed.

Lemma wrong_network_declined_witness :
  let m := Fixture.on Fixture.mainnetWorld in
  let m' := (exec (onConnectWallet Fixture.hostProps "beta") m).2 in
  let msg := "Network mismatch: This app requires "
             +:+ expectedNetwork Fixture.hostProps
             +:+ ". Please switch your wallet network." in
  walletState (state m') = walletState (state m) /\
  showWalletList (state m') = showWalletList (state m) /\
  connectionError (state m') = None /\
  trace m' =
    trace m ++
    [CalledEnable "beta" (Fulfilled 0%nat);
     CalledGetNetworkId 0%nat (Fulfilled 1)] ++
    (if throttlePasses (lastErrorRef (state m)) msg (clock (world m))
     then [showErrorEvent Fixture.hostProps msg] else []).
Proof.
  apply (wrong_network_declined Fixture.hostProps "beta" 0%nat
           (Fixture.on Fixture.mainnetWorld)
           {| enableOutcomes := [Fulfilled 0%nat] |}
           {| networkIdOutcomes := [Fulfilled 1];
              rewardAddressesOutcomes := [Fulfilled ["stake1abc"]] |}
           1 [] []);
    first [reflexivity | discriminate].
Defined.

(** X5.  When [enable()] is rejected, [onConnectWallet] makes no other
    call to the provider, logs the error and records "Error connecting to
    <name>: " followed by the message of an [Error], or by "Unknown error"
    for any other thrown value; [showError] is not called. *)
Theorem enable_rejected_recorded (props : Props) (name : string)
    (m : Machine) (p : Provider) (error : Thrown)
    (restE : list (Settled Handle)) :
  World.lookup name (world m) = Some p ->
  enableOutcomes p = Rejected error :: restE ->
  let m' := (exec (onConnectWallet props name) m).2 in
  walletState (state m') = walletState (state m) /\
  showWalletList (state m') = showWalletList (state m) /\
  connectionError (state m') =
    Some ("Error connecting to " +:+ name +:+ ": " +:+
          match error with
          | JsError msg => msg
          | NotAnError _ => "Unknown error"
          end) /\
  trace m' =
    trace m ++
    [CalledEnable name (Rejected error);
     ConsoleError ("Error connecting to " +:+ name +:+ ":") (Some error)].
Proof.
  intros Hp He m'; subst m'.
  destruct (handle_enable (withState (connecting name) m) name p _ _ Hp He)
    as [registry Hen].
  erewrite onConnectWallet_caught; cycle 1.
  { unfold connectAttempt. run.
    rewrite bool_decide_eq_true_2 by (by cbn; rewrite Hp). cbn [negb]. run.
    rewrite Hen. run. reflexivity. }
  cbn. rewrite <- !app_assoc. destruct error; done.
Qed.

Lemma enable_rejected_recorded_witness :
  let m := Fixture.on Scenario.decliningWorld in
  let m' := (exec (onConnectWallet Fixture.hostProps "eternl") m).2 in
  walletState (state m') = walletState (state m) /\
  showWalletList (state m') = showWalletList (state m) /\
  connectionError (state m') =
    Some ("Error connecting to " +:+ "eternl" +:+ ": " +:+ "user declined")
  /\
  trace m' =
    trace m ++
    [CalledEnable "eternl" (Rejected (JsError "user declined"));
     ConsoleError ("Error connecting to " +:+ "eternl" +:+ ":")
       (Some (JsError "user declined"))].
Proof.
  apply (enable_rejected_recorded Fixture.hostProps "eternl"
           (Fixture.on Scenario.decliningWorld)
           {| enableOutcomes := [Rejected (JsError "user declined")] |}
           (JsError "user declined") []);
    reflexivity.
Defined.

(** X6.  A first reward-address query that fails with a message that is
    not "account changed" is not retried: one query, no retry pause, no
    second [enable()], and the error is recorded by the [catch]. *)
Theorem unrelated_failure_not_retried (props : Props) (name : string)
    (api : Handle) (m : Machine) (p : Provider) (a : WalletApi)
    (error : Thrown) (restE : list (Settled Handle))
    (restN : list (Settled Z)) (rest : list (Settled (list string))) :
  World.lookup name (world m) = Some p ->
  enableOutcomes p = Fulfilled api :: restE ->
  apis (world m) !! api = Some a ->
  networkIdOutcomes a = Fulfilled (expectedNetworkId props) :: restN ->
  rewardAddressesOutcomes a = Rejected error :: rest ->
  isAccountChanged error = false ->
  let m' := (exec (onConnectWallet props name) m).2 in
  walletState (state m') = walletState (state m) /\
  connectionError (state m') =
    Some ("Error connecting to " +:+ name +:+ ": " +:+ errorMessageOf error)
  /\
  trace m' =
    trace m ++
    [CalledEnable name (Fulfilled api);
     CalledGetNetworkId api (Fulfilled (expectedNetworkId props));
     TimedOut 100;
     CalledGetRewardAddresses api (Rejected error);
     ConsoleError ("Error connecting to " +:+ name +:+ ":") (Some error)].
Proof.
  intros Hp He Ha Hn Hr Hu m'; subst m'.
  destruct (connectAttempt_reaches_loop props name api
              (withState (connecting name) m) p a restE restN Hp He Ha Hn)
    as (registry & _ & Hloop).
  erewrite onConnectWallet_caught; cycle 1.
  { rewrite Hloop. apply exec_mbind_fail.
    eapply loop_propagate; [| exact Hu].
    erewrite handle_getRewardAddresses;
      [reflexivity | cbn; apply lookup_insert_eq | exact Hr]. }
  cbn. rewrite <- !app_assoc. done.
Qed.

Lemma unrelated_failure_not_retried_witness :
  let m := Fixture.on Scenario.lockedWorld in
  let m' := (exec (onConnectWallet Fixture.hostProps "eternl") m).2 in
  walletState (state m') = walletState (state m) /\
  connectionError (state m') =
    Some ("Error connecting to " +:+ "eternl" +:+ ": "
          +:+ errorMessageOf (JsError "wallet locked")) /\
  trace m' =
    trace m ++
    [CalledEnable "eternl" (Fulfilled 0%nat);
     CalledGetNetworkId 0%nat
       (Fulfilled (expectedNetworkId Fixture.hostProps));
     TimedOut 100;
     CalledGetRewardAddresses 0%nat (Rejected (JsError "wallet locked"));
     ConsoleError ("Error connecting to " +:+ "eternl" +:+ ":")
       (Some (JsError "wallet locked"))].
Proof.
  apply (unrelated_failure_not_retried Fixture.hostProps "eternl" 0%nat
           (Fixture.on Scenario.lockedWorld)
           {| enableOutcomes := [Fulfilled 0%nat] |}
           {| networkIdOutcomes := [Fulfilled 0];
              rewardAddressesOutcomes :=
                [Rejected (JsError "wallet locked")] |}
           (JsError "wallet locked") [] [] []);
    reflexivity.
Defined.

(** X7.  When the first reward-address query answers, [onConnectWallet]
    connects with the first address, or with no stake address when the
    list is empty or its first entry is the empty string; it closes the
    list and tells the host once, through [onConnect] if it is given and
    through [navigateOnConnect] otherwise. *)
Theorem first_answer_connects (props : Props) (name : string)
    (api : Handle) (m : Machine) (p : Provider) (a : WalletApi)
    (addresses : list string) (restE : list (Settled Handle))
    (restN : list (Settled Z)) (rest : list (Settled (list string))) :
  World.lookup name (world m) = Some p ->
  enableOutcomes p = Fulfilled api :: restE ->
  apis (world m) !! api = Some a ->
  networkIdOutcomes a = Fulfilled (expectedNetworkId props) :: restN ->
  rewardAddressesOutcomes a = Fulfilled addresses :: rest ->
  let m' := (exec (onConnectWallet props name) m).2 in
  let stake :=
    match addresses with
    | first :: _ => if String.eqb first "" then None else Some first
    | [] => None
    end in
  walletState (state m') = connectedWallet name api stake /\
  showWalletList (state m') = false /\
  connectionError (state m') = None /\
  trace m' =
    trace m ++
    [CalledEnable name (Fulfilled api);
     CalledGetNetworkId api (Fulfilled (expectedNetworkId props));
     TimedOut 100;
     CalledGetRewardAddresses api (Fulfilled addresses)] ++
    (if onConnect props then [HostOnConnect name api stake]
     else if navigateOnConnect props
     then [HostNavigateOnConnect "/account"] else []).
Proof.
  intros Hp He Ha Hn Hr m' stake; subst m' stake.
  destruct (connectAttempt_reaches_loop props name api
              (withState (connecting name) m) p a restE restN Hp He Ha Hn)
    as (registry & _ & Hloop).
  erewrite onConnectWallet_finished; cycle 1.
  { rewrite Hloop. erewrite exec_mbind_ok; [apply exec_handleSuccessfulConnect |].
    eapply loop_success.
    erewrite handle_getRewardAddresses;
      [reflexivity | cbn; apply lookup_insert_eq | exact Hr]. }
  cbn. rewrite <- !app_assoc. done.
Qed.

Lemma first_answer_connects_witness :
  let m := Fixture.on Fixture.twoWallets in
  let m' := (exec (onConnectWallet Fixture.hostProps "lace") m).2 in
  let stake := if String.eqb "stake1xyz" "" then None else Some "stake1xyz" in
  walletState (state m') = connectedWallet "lace" 1%nat stake /\
  showWalletList (state m') = false /\
  connectionError (state m') = None /\
  trace m' =
    trace m ++
    [CalledEnable "lace" (Fulfilled 1%nat);
     CalledGetNetworkId 1%nat
       (Fulfilled (expectedNetworkId Fixture.hostProps));
     TimedOut 100;
     CalledGetRewardAddresses 1%nat (Fulfilled ["stake1xyz"])] ++
    (if onConnect Fixture.hostProps then [HostOnConnect "lace" 1%nat stake]
     else if navigateOnConnect Fixture.hostProps
     then [HostNavigateOnConnect "/account"] else []).
Proof.
  apply (first_answer_connects Fixture.hostProps "lace" 1%nat
           (Fixture.on Fixture.twoWallets)
           {| enableOutcomes := [Fulfilled 1%nat] |}
           {| networkIdOutcomes := [Fulfilled 0];
              rewardAddressesOutcomes := [Fulfilled ["stake1xyz"]] |}
           ["stake1xyz"] [] [] []);
    reflexivity.
Defined.

(** The budget is used up and the query on the re-enabled object settles
    with [final], whatever it is. *)
Lemma loop_final (name : string) (api newApi : Handle) (m : Machine)
    (p : Provider) (a a' : WalletApi) (e1 e2 e3 : Thrown)
    (final : Settled (list string)) (restE : list (Settled Handle))
    (rest rest' : list (Settled (list string))) :
  World.lookup name (world m) = Some p ->
  enableOutcomes p = Fulfilled newApi :: restE ->
  apis (world m) !! api = Some a ->
  rewardAddressesOutcomes a =
    Rejected e1 :: Rejected e2 :: Rejected e3 :: rest ->
  isAccountChanged e1 = true ->
  isAccountChanged e2 = true ->
  isAccountChanged e3 = true ->
  newApi <> api ->
  apis (world m) !! newApi = Some a' ->
  rewardAddressesOutcomes a' = final :: rest' ->
  exists m',
    exec (rewardAddressLoop 3 name api []) m = (final, m') /\
    state m' = state m /\
    trace m' =
      trace m ++
      [CalledGetRewardAddresses api (Rejected e1); TimedOut 500;
       CalledGetRewardAddresses api (Rejected e2); TimedOut 500;
       CalledGetRewardAddresses api (Rejected e3);
       CalledEnable name (Fulfilled newApi); TimedOut 200;
       CalledGetRewardAddresses newApi final].
Proof.
  intros Hp He Ha Hr H1 H2 H3 Hne Ha' Hr'.
  erewrite loop_exhausted by eauto.
  match goal with
  | |- context [exec (reEnable name) ?m4] =>
      destruct (reEnable_run name m4 p newApi restE Hp He) as [registry ->]
  end.
  erewrite handle_getRewardAddresses; [| | exact Hr'].
  2: { cbn. by rewrite lookup_insert_ne. }
  eexists; split; [reflexivity |]. cbn.
  split; [reflexivity |]. by rewrite <- !app_assoc.
Qed.

(** The budget is used up and the fresh [enable()] is rejected. *)
Lemma loop_reEnable_rejected (name : string) (api : Handle) (m : Machine)
    (p : Provider) (a : WalletApi) (e1 e2 e3 error : Thrown)
    (restE : list (Settled Handle)) (rest : list (Settled (list string))) :
  World.lookup name (world m) = Some p ->
  enableOutcomes p = Rejected error :: restE ->
  apis (world m) !! api = Some a ->
  rewardAddressesOutcomes a =
    Rejected e1 :: Rejected e2 :: Rejected e3 :: rest ->
  isAccountChanged e1 = true ->
  isAccountChanged e2 = true ->
  isAccountChanged e3 = true ->
  exists m',
    exec (rewardAddressLoop 3 name api []) m = (Rejected error, m') /\
    state m' = state m /\
    trace m' =
      trace m ++
      [CalledGetRewardAddresses api (Rejected e1); TimedOut 500;
       CalledGetRewardAddresses api (Rejected e2); TimedOut 500;
       CalledGetRewardAddresses api (Rejected e3);
       CalledEnable name (Rejected error)].
Proof.
  intros Hp He Ha Hr H1 H2 H3.
  erewrite loop_exhausted by eauto.
  match goal with
  | |- context [exec (reEnable name) ?m4] =>
      destruct (handle_enable m4 name p _ _ Hp He) as [registry Hen]
  end.
  unfold reEnable. erewrite exec_mbind_fail; cycle 1.
  { rewrite exec_await. exact Hen. }
  eexists; split; [reflexivity |]. cbn.
  split; [reflexivity |]. by rewrite <- !app_assoc.
Qed.

(** X8.  When the budget of three queries is used up and the query on the
    re-enabled object fails too, whatever its message, there is no further
    attempt: the error of that last query is recorded and the session is
    left as it was. *)
Theorem final_failure_recorded (props : Props) (name : string)
    (api newApi : Handle) (m : Machine) (p : Provider) (a a' : WalletApi)
    (e1 e2 e3 error : Thrown)
    (restE : list (Settled Handle)) (restN : list (Settled Z))
    (rest rest' : list (Settled (list string))) :
  World.lookup name (world m) = Some p ->
  enableOutcomes p = Fulfilled api :: Fulfilled newApi :: restE ->
  apis (world m) !! api = Some a ->
  networkIdOutcomes a = Fulfilled (expectedNetworkId props) :: restN ->
  rewardAddressesOutcomes a =
    Rejected e1 :: Rejected e2 :: Rejected e3 :: rest ->
  isAccountChanged e1 = true ->
  isAccountChanged e2 = true ->
  isAccountChanged e3 = true ->
  newApi <> api ->
  apis (world m) !! newApi = Some a' ->
  rewardAddressesOutcomes a' = Rejected error :: rest' ->
  let m' := (exec (onConnectWallet props name) m).2 in
  walletState (state m') = walletState (state m) /\
  connectionError (state m') =
    Some ("Error connecting to " +:+ name +:+ ": " +:+ errorMessageOf error)
  /\
  trace m' =
    trace m ++
    [CalledEnable name (Fulfilled api);
     CalledGetNetworkId api (Fulfilled (expectedNetworkId props));
     TimedOut 100;
     CalledGetRewardAddresses api (Rejected e1); TimedOut 500;
     CalledGetRewardAddresses api (Rejected e2); TimedOut 500;
     CalledGetRewardAddresses api (Rejected e3);
     CalledEnable name (Fulfilled newApi); TimedOut 200;
     CalledGetRewardAddresses newApi (Rejected error);
     ConsoleError ("Error connecting to " +:+ name +:+ ":") (Some error)].
Proof.
  intros Hp He Ha Hn Hr H1 H2 H3 Hne Ha' Hr' m'; subst m'.
  destruct (connectAttempt_reaches_loop props name api
              (withState (connecting name) m) p a _ restN Hp He Ha Hn)
    as (registry & Hreg & Hloop).
  match type of Hloop with
  | _ = exec _ ?m3 =>
      destruct (loop_final name api newApi m3
                  {| enableOutcomes := Fulfilled newApi :: restE |}
                  {| networkIdOutcomes := restN;
                     rewardAddressesOutcomes := rewardAddressesOutcomes a |}
                  a' e1 e2 e3 (Rejected error) restE rest rest')
        as (m4 & Hrun & Hstate & Htrace);
        [exact Hreg | done | cbn; apply lookup_insert_eq | exact Hr
        | done | done | done | done
        | cbn; by rewrite lookup_insert_ne | exact Hr' |]
  end.
  erewrite onConnectWallet_caught; cycle 1.
  { rewrite Hloop. apply exec_mbind_fail. exact Hrun. }
  cbn [snd state trace]. rewrite Hstate, Htrace. cbn.
  rewrite <- !app_assoc. done.
Qed.

Lemma final_failure_recorded_witness :
  let m := Fixture.on Scenario.exhaustedWorld in
  let m' := (exec (onConnectWallet Fixture.hostProps "eternl") m).2 in
  let changed := JsError "account changed" in
  let locked := JsError "wallet locked" in
  walletState (state m') = walletState (state m) /\
  connectionError (state m') =
    Some ("Error connecting to " +:+ "eternl" +:+ ": "
          +:+ errorMessageOf locked) /\
  trace m' =
    trace m ++
    [CalledEnable "eternl" (Fulfilled 0%nat);
     CalledGetNetworkId 0%nat
       (Fulfilled (expectedNetworkId Fixture.hostProps));
     TimedOut 100;
     CalledGetRewardAddresses 0%nat (Rejected changed); TimedOut 500;
     CalledGetRewardAddresses 0%nat (Rejected changed); TimedOut 500;
     CalledGetRewardAddresses 0%nat (Rejected changed);
     CalledEnable "eternl" (Fulfilled 1%nat); TimedOut 200;
     CalledGetRewardAddresses 1%nat (Rejected locked);
     ConsoleError ("Error connecting to " +:+ "eternl" +:+ ":")
       (Some locked)].
Proof.
  apply (final_failure_recorded Fixture.hostProps "eternl" 0%nat 1%nat
           (Fixture.on Scenario.exhaustedWorld)
           {| enableOutcomes := [Fulfilled 0%nat; Fulfilled 1%nat] |}
           {| networkIdOutcomes := [Fulfilled 0];
              rewardAddressesOutcomes :=
                [Fixture.accountChanged; Fixture.accountChanged;
                 Fixture.accountChanged] |}
           {| networkIdOutcomes := [];
              rewardAddressesOutcomes :=
                [Rejected (JsError "wallet locked")] |}
           (JsError "account changed") (JsError "account changed")
           (JsError "account changed") (JsError "wallet locked")
           [] [] [] []);
    first [reflexivity | discriminate].
Defined.

(** X9.  When the budget of three queries is used up and the second
    [enable()] is rejected, no further query is made and no 200 ms pause is
    taken: the rejection is recorded and the session is left as it was. *)
Theorem reEnable_rejection_recorded (props : Props) (name : string)
    (api : Handle) (m : Machine) (p : Provider) (a : WalletApi)
    (e1 e2 e3 error : Thrown)
    (restE : list (Settled Handle)) (restN : list (Settled Z))
    (rest : list (Settled (list string))) :
  World.lookup name (world m) = Some p ->
  enableOutcomes p = Fulfilled api :: Rejected error :: restE ->
  apis (world m) !! api = Some a ->
  networkIdOutcomes a = Fulfilled (expectedNetworkId props) :: restN ->
  rewardAddressesOutcomes a =
    Rejected e1 :: Rejected e2 :: Rejected e3 :: rest ->
  isAccountChanged e1 = true ->
  isAccountChanged e2 = true ->
  isAccountChanged e3 = true ->
  let m' := (exec (onConnectWallet props name) m).2 in
  walletState (state m') = walletState (state m) /\
  connectionError (state m') =
    Some ("Error connecting to " +:+ name +:+ ": " +:+ errorMessageOf error)
  /\
  trace m' =
    trace m ++
    [CalledEnable name (Fulfilled api);
     CalledGetNetworkId api (Fulfilled (expectedNetworkId props));
     TimedOut 100;
     CalledGetRewardAddresses api (Rejected e1); TimedOut 500;
     CalledGetRewardAddresses api (Rejected e2); TimedOut 500;
     CalledGetRewardAddresses api (Rejected e3);
     CalledEnable name (Rejected error);
     ConsoleError ("Error connecting to " +:+ name +:+ ":") (Some error)].
Proof.
  intros Hp He Ha Hn Hr H1 H2 H3 m'; subst m'.
  destruct (connectAttempt_reaches_loop props name api
              (withState (connecting name) m) p a _ restN Hp He Ha Hn)
    as (registry & Hreg & Hloop).
  match type of Hloop with
  | _ = exec _ ?m3 =>
      destruct (loop_reEnable_rejected name api m3
                  {| enableOutcomes := Rejected error :: restE |}
                  {| networkIdOutcomes := restN;
                     rewardAddressesOutcomes := rewardAddressesOutcomes a |}
                  e1 e2 e3 error restE rest)
        as (m4 & Hrun & Hstate & Htrace);
        [exact Hreg | done | cbn; apply lookup_insert_eq | exact Hr
        | done | done | done |]
  end.
  erewrite onConnectWallet_caught; cycle 1.
  { rewrite Hloop. apply exec_mbind_fail. exact Hrun. }
  cbn [snd state trace]. rewrite Hstate, Htrace. cbn.
  rewrite <- !app_assoc. done.
Qed.

Lemma reEnable_rejection_recorded_witness :
  let m := Fixture.on Scenario.revokedWorld in
  let m' := (exec (onConnectWallet Fixture.hostProps "eternl") m).2 in
  let changed := JsError "account changed" in
  let declined := JsError "user declined" in
  walletState (state m') = walletState (state m) /\
  connectionError (state m') =
    Some ("Error connecting to " +:+ "eternl" +:+ ": "
          +:+ errorMessageOf declined) /\
  trace m' =
    trace m ++
    [CalledEnable "eternl" (Fulfilled 0%nat);
     CalledGetNetworkId 0%nat
       (Fulfilled (expectedNetworkId Fixture.hostProps));
     TimedOut 100;
     CalledGetRewardAddresses 0%nat (Rejected changed); TimedOut 500;
     CalledGetRewardAddresses 0%nat (Rejected changed); TimedOut 500;
     CalledGetRewardAddresses 0%nat (Rejected changed);
     CalledEnable "eternl" (Rejected declined);
     ConsoleError ("Error connecting to " +:+ "eternl" +:+ ":")
       (Some declined)].
Proof.
  apply (reEnable_rejection_recorded Fixture.hostProps "eternl" 0%nat
           (Fixture.on Scenario.revokedWorld)
           {| enableOutcomes :=
                [Fulfilled 0%nat; Rejected (JsError "user declined")] |}
           {| networkIdOutcomes := [Fulfilled 0];
              rewardAddressesOutcomes :=
                [Fixture.accountChanged; Fixture.accountChanged;
                 Fixture.accountChanged] |}
           (JsError "account changed") (JsError "account changed")
           (JsError "account changed") (JsError "user declined")
           [] [] []);
    reflexivity.
Defined.

(** The attempt clears [connectionError] or leaves it alone. *)
Lemma connectAttempt_connectionError (props : Props) (name : string)
    (m : Machine) :
  connectionError (state m) = None ->
  connectionError (state (exec (connectAttempt props name) m).2) = None.
Proof.
  intros Hm.
  enough (H : connectionError (state (exec (connectAttempt props name) m).2)
              = connectionError (state m)
              \/ connectionError
                   (state (exec (connectAttempt props name) m).2) = None)
    by (destruct H as [H | H]; congruence).
  apply (exec_Writes
           (fun f => forall s, connectionError (f s) = connectionError s
                               \/ connectionError (f s) = None)
           (fun s s' => connectionError s' = connectionError s
                        \/ connectionError s' = None)).
  - by left.
  - intros f s s1 Hf H1. destruct (Hf s1) as [H2 | H2]; [| by right].
    by rewrite H2.
  - unfold connectAttempt; explore; first [by left | by right].
Qed.


(** X10.  [onConnectWallet] never rejects: whatever the provider does,
    the promise fulfils, [isConnecting] is false and [pendingWallet] is
    empty at the end, and [connectionError] is empty or an "Error
    connecting to <name>: ..." text written by the [catch]. *)
Theorem negotiation_always_settles (props : Props) (name : string)
    (m : Machine) :
  let r := exec (onConnectWallet props name) m in
  r.1 = Fulfilled tt /\
  isConnecting (state r.2) = false /\
  pendingWallet (state r.2) = None /\
  (connectionError (state r.2) = None \/
   exists error,
     connectionError (state r.2) =
     Some ("Error connecting to " +:+ name +:+ ": "
           +:+ errorMessageOf error)).
Proof.
  intros r; subst r.
  destruct (exec (connectAttempt props name) (withState (connecting name) m))
    as [[[] | error] m1] eqn:Hrun.
  - erewrite onConnectWallet_finished by exact Hrun.
    repeat split; try done. left.
    pose proof (connectAttempt_connectionError props name
                  (withState (connecting name) m) eq_refl) as H.
    by rewrite Hrun in H.
  - erewrite onConnectWallet_caught by exact Hrun.
    repeat split; try done. right. by exists error.
Qed.

(** ** The throttle over time *)

Lemma totalDelay_nonneg (delays : list Z) :
  Forall (fun d => 0 <= d) delays -> 0 <= totalDelay delays.
Proof. induction 1; simpl; lia. Qed.

(** Once the message is remembered, nothing more is shown for as long as
    the window lasts. *)
Lemma burst_quiet (props : Props) (msg : string) (delays : list Z)
    (m : Machine) (last : LastError) :
  lastErrorRef (state m) = Some last ->
  message last = msg ->
  Forall (fun d => 0 <= d) delays ->
  clock (world m) - timestamp last + totalDelay delays <= 1000 ->
  exists evs,
    trace (exec (burst props msg delays) m).2 = trace m ++ evs /\
    occurrences (only KShowError) evs = 0%nat.
Proof.
  intros Hlast Hmsg Hpos. revert m Hlast.
  induction Hpos as [| d rest Hd Hrest IH]; intros m Hlast Hwin.
  - assert (Hno : throttlePasses (lastErrorRef (state m)) msg
                    (clock (world m)) = false).
    { rewrite Hlast. cbn. rewrite Hmsg, String.eqb_refl. cbn.
      apply Z.ltb_ge. cbn in Hwin. lia. }
    cbn [burst]. erewrite exec_mbind_ok by apply exec_showErrorOnce.
    rewrite Hno. exists []. by rewrite app_nil_r.
  - pose proof (totalDelay_nonneg rest Hrest) as Hsum.
    cbn [totalDelay foldr] in Hwin; fold (totalDelay rest) in Hwin.
    assert (Hno : throttlePasses (lastErrorRef (state m)) msg
                    (clock (world m)) = false).
    { rewrite Hlast. cbn. rewrite Hmsg, String.eqb_refl. cbn.
      apply Z.ltb_ge. lia. }
    cbn [burst]. erewrite exec_mbind_ok by apply exec_showErrorOnce.
    rewrite Hno. run.
    destruct (IH (handle (SetTimeout d) m).2) as (evs & Ht & Hc);
      [exact Hlast | cbn; lia |].
    exists (TimedOut d :: evs). split.
    + rewrite Ht. cbn. by rewrite <- app_assoc.
    + exact Hc.
Qed.

Lemma occurrences_showErrorEvent (props : Props) (msg : string) :
  occurrences (only KShowError) [showErrorEvent props msg] = 1%nat.
Proof. unfold showErrorEvent. by destruct (showError props). Qed.

(** X11.  One message reported again and again through [showErrorOnce]
    within 1000 ms of the first report is shown at most once, whatever was
    remembered before. *)
Theorem burst_shown_at_most_once (props : Props) (msg : string)
    (delays : list Z) (m : Machine) :
  Forall (fun d => 0 <= d) delays ->
  totalDelay delays <= 1000 ->
  exists evs,
    trace (exec (burst props msg delays) m).2 = trace m ++ evs /\
    (occurrences (only KShowError) evs <= 1)%nat.
Proof.
  intros Hpos. revert m.
  induction Hpos as [| d rest Hd Hrest IH]; intros m Hwin.
  - cbn [burst]. erewrite exec_mbind_ok by apply exec_showErrorOnce.
    destruct (throttlePasses _ _ _); cbn [exec snd trace].
    + eexists [_]. split; [reflexivity |].
      rewrite occurrences_showErrorEvent. lia.
    + exists []. split; [by rewrite app_nil_r |].
      rewrite occurrences_nil. lia.
  - pose proof (totalDelay_nonneg rest Hrest) as Hsum.
    cbn [totalDelay foldr] in Hwin; fold (totalDelay rest) in Hwin.
    destruct (throttlePasses (lastErrorRef (state m)) msg (clock (world m)))
      eqn:Hpass.
    + (* shown now: the rest of the burst stays quiet *)
      destruct (burst_quiet props msg (d :: rest)
                  {| state := setLastErrorRef
                       (Some {| message := msg;
                                timestamp := clock (world m) |}) (state m);
                     world := world m;
                     trace := trace m ++ [showErrorEvent props msg] |}
                  {| message := msg; timestamp := clock (world m) |})
        as (evs & Ht & Hc);
        [done | done | by constructor
        | cbn [world clock timestamp totalDelay foldr];
          fold (totalDelay rest); lia |].
      assert (Hq : forall m0,
                 throttlePasses (lastErrorRef (state m0)) msg
                   (clock (world m0)) = false ->
                 exec (burst props msg (d :: rest)) m0 =
                 exec (sleep d;; burst props msg rest) m0).
      { intros m0 H0. cbn [burst].
        erewrite exec_mbind_ok by apply exec_showErrorOnce. by rewrite H0. }
      cbn [burst]. erewrite exec_mbind_ok by apply exec_showErrorOnce.
      rewrite Hpass. rewrite <- Hq, Ht; cycle 1.
      { cbn. rewrite String.eqb_refl. cbn. apply Z.ltb_ge. lia. }
      exists (showErrorEvent props msg :: evs). split.
      * cbn. by rewrite <- app_assoc.
      * change (showErrorEvent props msg :: evs)
          with ([showErrorEvent props msg] ++ evs).
        rewrite occurrences_app, Hc, occurrences_showErrorEvent. lia.
    + (* suppressed now: the rest is a shorter burst *)
      cbn [burst]. erewrite exec_mbind_ok by apply exec_showErrorOnce.
      rewrite Hpass. run.
      destruct (IH (handle (SetTimeout d) m).2) as (evs & Ht & Hc);
        [lia |].
      exists (TimedOut d :: evs). split.
      * rewrite Ht. cbn. by rewrite <- app_assoc.
      * exact Hc.
Qed.

Lemma burst_shown_at_most_once_witness :
  exists evs,
    trace (exec (burst Fixture.hostProps "Wallet is locked" [300; 300; 400])
             (Fixture.on Fixture.emptyWorld)).2
    = trace (Fixture.on Fixture.emptyWorld) ++ evs /\
    (occurrences (only KShowError) evs <= 1)%nat.
Proof.
  apply (burst_shown_at_most_once Fixture.hostProps "Wallet is locked"
           [300; 300; 400] (Fixture.on Fixture.emptyWorld)).
  - repeat constructor; lia.
  - vm_compute. discriminate.
Defined.

(** After any report of [msg], a pair for [msg] is remembered. *)
Lemma showErrorOnce_remembers (props : Props) (msg : string) (m : Machine) :
  exists last,
    lastErrorRef (state (exec (showErrorOnce props msg) m).2) = Some last /\
    message last = msg.
Proof.
  rewrite exec_showErrorOnce. cbn [snd].
  destruct (throttlePasses _ _ _) eqn:Hpass; [by eexists |].
  unfold throttlePasses in Hpass.
  destruct (lastErrorRef (state m)) as [last |]; [| done].
  exists last. split; [done |].
  apply orb_false_iff in Hpass as [Heq _].
  apply negb_false_iff in Heq. by apply String.eqb_eq.
Qed.

(** X12.  [showErrorOnce] remembers one message only: after [a] was
    reported, reporting another message [b] and then [a] again shows both,
    without any time passing. *)
Theorem throttle_forgets_on_other_message (props : Props) (a b : string)
    (m : Machine) :
  a <> b ->
  let m1 := (exec (showErrorOnce props a) m).2 in
  trace (exec (showErrorOnce props b;; showErrorOnce props a) m1).2
  = trace m1 ++ [showErrorEvent props b; showErrorEvent props a].
Proof.
  intros Hab m1; subst m1.
  destruct (showErrorOnce_remembers props a m) as (last & Hlast & Hmsg).
  erewrite exec_mbind_ok by apply exec_showErrorOnce.
  rewrite Hlast. cbn [throttlePasses].
  rewrite Hmsg, (proj2 (String.eqb_neq a b) Hab). cbn [negb orb].
  rewrite exec_showErrorOnce. cbn [state lastErrorRef setLastErrorRef
    throttlePasses message].
  rewrite (proj2 (String.eqb_neq b a)) by congruence.
  cbn. by rewrite <- app_assoc.
Qed.

Lemma throttle_forgets_on_other_message_witness :
  let m1 := (exec (showErrorOnce Fixture.hostProps "first")
               (Fixture.on Fixture.emptyWorld)).2 in
  trace (exec (showErrorOnce Fixture.hostProps "second";;
               showErrorOnce Fixture.hostProps "first") m1).2
  = trace m1 ++ [showErrorEvent Fixture.hostProps "second";
                 showErrorEvent Fixture.hostProps "first"].
Proof.
  apply (throttle_forgets_on_other_message Fixture.hostProps
           "first" "second" (Fixture.on Fixture.emptyWorld)).
  discriminate.
Defined.

(** ** The widget's failure callback *)

Lemma prefix_toLowerCase (u s : string) :
  String.prefix u s = true ->
  String.prefix (JsString.toLowerCase u) (JsString.toLowerCase s) = true.
Proof.
  revert u. induction s as [| c s IH]; intros [| d u]; simpl; try done.
  destruct (ascii_dec d c) as [-> | Hne]; [| done].
  intros H. destruct (ascii_dec _ _); [by apply IH | done].
Qed.

(** Lower-casing keeps substrings: the test of [onConnectError] does not
    depend on the case of the message. *)
Lemma includes_toLowerCase (s u : string) :
  JsString.includes s u = true ->
  JsString.includes (JsString.toLowerCase s) (JsString.toLowerCase u) = true.
Proof.
  induction s as [| c s IH]; cbn [JsString.includes JsString.toLowerCase].
  - rewrite !orb_false_r. intros H.
    by apply (prefix_toLowerCase u "") in H.
  - intros [H | H]%orb_true_iff.
    + apply (prefix_toLowerCase u (String c s)) in H.
      cbn [JsString.toLowerCase] in H. by rewrite H.
    + rewrite (IH H). apply orb_true_r.
Qed.

(** X13.  [onConnectError] recognises "not installed", "not found",
    "not available" and "no wallet" in any mix of upper and lower case
    anywhere in the error text: it reports the not-installed message
    through the throttle and leaves [connectionError] as it was. *)
Theorem widget_not_installed_any_case (props : Props)
    (name error phrase : string) (m : Machine) :
  In (JsString.toLowerCase phrase)
     ["not installed"; "not found"; "not available"; "no wallet"] ->
  JsString.includes error phrase = true ->
  let m' := (exec (onConnectError props name error) m).2 in
  walletState (state m') = walletState (state m) /\
  connectionError (state m') = connectionError (state m) /\
  trace m' =
    trace m ++
    ConsoleError ("ConnectWalletList error for " +:+ name +:+ ":")
      (Some (JsError error))
    :: (if throttlePasses (lastErrorRef (state m)) (notInstalledMessage name)
             (clock (world m))
        then [showErrorEvent props (notInstalledMessage name)] else []).
Proof.
  intros Hphrase Hin m'; subst m'.
  apply includes_toLowerCase in Hin.
  assert (Hni : mentionsNotInstalled (JsString.toLowerCase error) = true).
  { unfold mentionsNotInstalled. simpl in Hphrase.
    destruct Hphrase as [H | [H | [H | [H | []]]]]; rewrite <- H in Hin;
      rewrite Hin, ?orb_true_r; reflexivity. }
  rewrite exec_onConnectError, Hni, exec_showErrorOnce.
  cbn [snd logged withState state world trace].
  destruct (throttlePasses _ _ _); cbn; rewrite <- ?app_assoc; done.
Qed.

Lemma widget_not_installed_any_case_witness :
  let m := Fixture.on Fixture.emptyWorld in
  let m' := (exec (onConnectError Fixture.hostProps "eternl"
                     "Wallet Not Installed") m).2 in
  walletState (state m') = walletState (state m) /\
  connectionError (state m') = connectionError (state m) /\
  trace m' =
    trace m ++
    ConsoleError ("ConnectWalletList error for " +:+ "eternl" +:+ ":")
      (Some (JsError "Wallet Not Installed"))
    :: (if throttlePasses (lastErrorRef (state m))
             (notInstalledMessage "eternl") (clock (world m))
        then [showErrorEvent Fixture.hostProps
                (notInstalledMessage "eternl")] else []).
Proof.
  apply (widget_not_installed_any_case Fixture.hostProps "eternl"
           "Wallet Not Installed" "Not Installed"
           (Fixture.on Fixture.emptyWorld)).
  - left. reflexivity.
  - reflexivity.
Defined.

(** X14.  [onConnectError], for an error text that is not about a missing
    wallet, recognises "wrong network", "network type", "mainnet" and
    "testnet" in any mix of upper and lower case: it records and reports
    the network-mismatch message for the configured network. *)
Theorem widget_network_any_case (props : Props)
    (name error phrase : string) (m : Machine) :
  mentionsNotInstalled (JsString.toLowerCase error) = false ->
  In (JsString.toLowerCase phrase)
     ["wrong network"; "network type"; "mainnet"; "testnet"] ->
  JsString.includes error phrase = true ->
  let m' := (exec (onConnectError props name error) m).2 in
  let configured :=
    match networkType props with
    | MAINNET => "Mainnet"
    | TESTNET => "Testnet"
    end in
  let msg := "Network mismatch: This app requires " +:+ configured
             +:+ ". Please switch your wallet to " +:+ configured
             +:+ " and try again." in
  connectionError (state m') = Some msg /\
  trace m' =
    trace m ++
    ConsoleError ("ConnectWalletList error for " +:+ name +:+ ":")
      (Some (JsError error))
    :: (if throttlePasses (lastErrorRef (state m)) msg (clock (world m))
        then [showErrorEvent props msg] else []).
Proof.
  intros Hni Hphrase Hin m' configured msg; subst m' configured msg.
  apply includes_toLowerCase in Hin.
  assert (Hwn : mentionsWrongNetwork (JsString.toLowerCase error) = true).
  { unfold mentionsWrongNetwork. simpl in Hphrase.
    destruct Hphrase as [H | [H | [H | [H | []]]]]; rewrite <- H in Hin;
      rewrite Hin, ?orb_true_r; reflexivity. }
  rewrite exec_onConnectError, Hni, Hwn, exec_showErrorOnce.
  cbn [snd logged withState state world trace].
  destruct (throttlePasses _ _ _); cbn; rewrite <- ?app_assoc; done.
Qed.

Lemma widget_network_any_case_witness :
  let m := Fixture.on Fixture.emptyWorld in
  let m' := (exec (onConnectError Fixture.hostProps "eternl"
                     "Please switch to MainNet") m).2 in
  let msg := "Network mismatch: This app requires " +:+ "Testnet"
             +:+ ". Please switch your wallet to " +:+ "Testnet"
             +:+ " and try again." in
  connectionError (state m') = Some msg /\
  trace m' =
    trace m ++
    ConsoleError ("ConnectWalletList error for " +:+ "eternl" +:+ ":")
      (Some (JsError "Please switch to MainNet"))
    :: (if throttlePasses (lastErrorRef (state m)) msg (clock (world m))
        then [showErrorEvent Fixture.hostProps msg] else []).
Proof.
  apply (widget_network_any_case Fixture.hostProps "eternl"
           "Please switch to MainNet" "MainNet"
           (Fixture.on Fixture.emptyWorld)).
  - reflexivity.
  - right. right. left. reflexivity.
  - reflexivity.
Defined.

(** X15.  [onConnectError], called with a value that has a string
    [message], returns normally, touches neither the session, the list nor
    the provider, and ends with [isConnecting] false and [pendingWallet]
    empty.  Called with a value that has none, it logs the value and throws
    a [TypeError] before any setter: every cell stays as it was,
    [isConnecting] included. *)
Theorem widget_failure_frame (props : Props) (name : string)
    (error : Reported) (m : Machine) :
  let r := exec (Widget.onConnectError props name error) m in
  walletState (state r.2) = walletState (state m) /\
  showWalletList (state r.2) = showWalletList (state m) /\
  world r.2 = world m /\
  match error with
  | HasMessage _ =>
      r.1 = Fulfilled tt /\
      isConnecting (state r.2) = false /\
      pendingWallet (state r.2) = None
  | NoMessage description =>
      r.1 = Rejected (JsError "TypeError") /\
      state r.2 = state m /\
      trace r.2 =
        trace m ++
        [ConsoleError ("ConnectWalletList error for " +:+ name +:+ ":")
           (Some (NotAnError description))]
  end.
Proof.
  intros r; subst r. destruct error as [msg | description];
    cbn [Widget.onConnectError].
  - rewrite exec_onConnectError.
    destruct (mentionsNotInstalled _); [| destruct (mentionsWrongNetwork _)];
      rewrite exec_showErrorOnce; cbn [fst snd];
      destruct (throttlePasses _ _ _); done.
  - run. by repeat split.
Qed.

(** ** Opening and closing the list *)

(** X16.  [openWalletList] toggles the list in the dropdown layout, so
    that two clicks give the list back as it was, and opens it for good in
    the flex layout; either way it clears [connectionError] and
    [pendingWallet] and leaves [isConnecting] and the session alone. *)
Theorem openWalletList_toggles (props : Props) (m : Machine) :
  let once := exec (openWalletList props) m in
  let twice := exec (openWalletList props;; openWalletList props) m in
  showWalletList (state once.2) =
    (if isDropdownLayout props then negb (showWalletList (state m))
     else true) /\
  showWalletList (state twice.2) =
    (if isDropdownLayout props then showWalletList (state m) else true) /\
  connectionError (state once.2) = None /\
  pendingWallet (state once.2) = None /\
  isConnecting (state once.2) = isConnecting (state m) /\
  walletState (state once.2) = walletState (state m) /\
  world once.2 = world m /\ trace once.2 = trace m.
Proof.
  unfold openWalletList. destruct (isDropdownLayout props); cbn;
    rewrite ?negb_involutive; done.
Qed.



(** X18.  In the dropdown layout a click outside does nothing while a
    session is connected (no element carries [dropdownRef]).  Otherwise,
    unlike [closeWalletList], the listener does not look at
    [isConnecting]: it closes the list and clears a recorded error at any
    moment, also during a negotiation, which stays pending. *)
Theorem click_outside_not_guarded (props : Props) (name : string)
    (m : Machine) :
  listLayout props = dropdown ->
  let click := exec (handler props ClickOutside) in
  (isConnected (walletState (state m)) = true ->
   click m = (Fulfilled tt, m)) /\
  (isConnected (walletState (state m)) = false ->
   (click m).1 = Fulfilled tt /\
   showWalletList (state (click m).2) = false /\
   connectionError (state (click m).2) = None /\
   walletState (state (click m).2) = walletState (state m) /\
   isConnecting (state (click m).2) = isConnecting (state m) /\
   pendingWallet (state (click m).2) = pendingWallet (state m) /\
   lastErrorRef (state (click m).2) = lastErrorRef (state m) /\
   world (click m).2 = world m /\
   trace (click m).2 = trace m /\
   (is_Some (World.lookup name (world m)) ->
    let inflight := (advance (onConnectWallet props name) m).2 in
    isConnecting (state inflight) = true /\
    showWalletList (state (click inflight).2) = false /\
    isConnecting (state (click inflight).2) = true /\
    pendingWallet (state (click inflight).2) = Some name)).
Proof.
  intros Hlayout click; subst click.
  cbn [handler]. unfold isDropdownLayout. rewrite Hlayout.
  unfold handleClickOutside, dropdownRefAttached.
  split; intros Hc.
  - run. rewrite Hc. by destruct m.
  - run. rewrite Hc. cbn [negb]. run.
    do 9 (split; [done |]).
    intros Hin.
    assert (Hadv : (advance (onConnectWallet props name) m).2
                   = withState (connecting name) m).
    { unfold onConnectWallet.
      cbn [mbind Proc_bind bind tryCatch tryFinally advance perform await
           suspends fst snd].
      rewrite !handle_SetState, handle_WindowCardano. cbn [fst snd].
      rewrite bool_decide_eq_true_2 by done. reflexivity. }
    rewrite Hadv.
    cbn [withState state connecting walletState setPendingWallet
         setConnectionError setIsConnecting].
    rewrite Hc. done.
Qed.

(** The list is open and the user has turned "eternl" down, so an error
    is recorded: a click outside closes the list and clears the error.
    On a connected session the click does nothing. *)
Lemma click_outside_not_guarded_witness :
  let click := exec (handler Fixture.hostProps ClickOutside) in
  (showWalletList (state Scenario.declined) = true /\
   connectionError (state Scenario.declined) =
     Some "Error connecting to eternl: user declined") /\
  (showWalletList (state (click Scenario.declined).2) = false /\
   connectionError (state (click Scenario.declined).2) = None) /\
  (isConnected (walletState (state Fixture.connected)) = true /\
   click Fixture.connected = (Fulfilled tt, Fixture.connected)).
Proof.
  split; [split; reflexivity | split].
  - destruct (proj2 (click_outside_not_guarded Fixture.hostProps "eternl"
                       Scenario.declined eq_refl))
      as (_ & Hl & He & _); [reflexivity |].
    split; [exact Hl | exact He].
  - split; [reflexivity |].
    apply (proj1 (click_outside_not_guarded Fixture.hostProps "eternl"
                    Fixture.connected eq_refl)).
    reflexivity.
Defined.

(** ** The rendered controls *)

Lemma truthy_Some (v : option string) (t : string) :
  truthy v = Some t <-> v = Some t /\ t <> "".
Proof.
  unfold truthy. destruct v as [s |]; [| by split; [| intros []]].
  destruct (String.eqb_spec s "") as [-> | Hne]; split.
  - done.
  - intros [[= <-] Ht]. done.
  - by intros [= <-].
  - by intros [[= <-] _].
Qed.

Ltac take_apart :=
  repeat match goal with
         | H : _ \/ _ |- _ => destruct H
         | H : _ /\ _ |- _ => destruct H
         | H : exists _, _ |- _ => destruct H
         | H : False |- _ => destruct H
         | H : _ = _ |- _ =>
             first [ discriminate H
                   | progress (injection H; clear H; intros; subst) ]
         end.

Lemma In_renderConnectionFeedback (s : State) (el : Element) :
  In el (renderConnectionFeedback s) <->
  (exists t, el = ErrorBanner t /\ truthy (connectionError s) = Some t) \/
  (exists w, el = ConnectingNote ("Connecting to " +:+ w +:+ "...") /\
             isConnecting s = true /\ truthy (pendingWallet s) = Some w).
Proof.
  unfold renderConnectionFeedback. rewrite in_app_iff.
  destruct (truthy (connectionError s)) as [e |],
    (isConnecting s), (truthy (pendingWallet s)) as [p |]; cbn [In];
    (split;
     [ intros H; repeat (destruct H as [H | H]); try contradiction;
       subst el; first [left; by eauto | right; by eauto]
     | intros [(t & -> & Ht) | (w & -> & Hc & Hw)]; take_apart; tauto ]).
Qed.

(** Membership in a view, case by case. *)
Ltac in_view :=
  cbn [orb negb app In];
  rewrite ?in_app_iff, ?In_renderConnectionFeedback; cbn [In].

(** An error banner shows a recorded error; a connecting note shows while
    connecting. *)
Lemma render_error_banner_aux (props : Props) (pres : Presentation)
    (s : State) (t : string) :
  In (ErrorBanner t) (render props pres s) -> connectionError s = Some t.
Proof.
  unfold render.
  destruct (isConnected (walletState s)), (showTitle pres),
    (showDescription pres), (isDropdownLayout props), (showWalletList s);
    in_view; intros H; take_apart; try done;
    match goal with
    | Ht : truthy _ = Some _ |- _ => by apply truthy_Some in Ht as [? _]
    end.
Qed.

Lemma render_connecting_note_aux (props : Props) (pres : Presentation)
    (s : State) (note : string) :
  In (ConnectingNote note) (render props pres s) -> isConnecting s = true.
Proof.
  unfold render.
  destruct (isConnected (walletState s)), (showTitle pres),
    (showDescription pres), (isDropdownLayout props), (showWalletList s);
    in_view; intros H; take_apart; done.
Qed.

(** X19.  A connected component renders the Disconnect button and nothing
    else; the Disconnect button is rendered exactly when connected, and
    the wallet list exactly when disconnected and the list is open. *)
Theorem render_controls (props : Props) (pres : Presentation) (s : State) :
  let view := render props pres s in
  (isConnected (walletState s) = true -> view = [DisconnectButton]) /\
  (In DisconnectButton view <-> isConnected (walletState s) = true) /\
  (In WalletList view <->
   isConnected (walletState s) = false /\ showWalletList s = true).
Proof.
  intros view; subst view. unfold render.
  destruct (isConnected (walletState s)), (showTitle pres),
    (showDescription pres), (isDropdownLayout props), (showWalletList s);
    in_view; (split; [done |]);
    (split; split; intros H; take_apart; try done; tauto).
Qed.

(** X20.  The recorded [connectionError] is rendered exactly when the
    component is disconnected, the list is open, the text is not empty and
    a title or a description is shown: the views without title and
    description never render it. *)
Theorem render_error_banner (props : Props) (pres : Presentation)
    (s : State) (t : string) :
  In (ErrorBanner t) (render props pres s) <->
  isConnected (walletState s) = false /\
  (showTitle pres = true \/ showDescription pres = true) /\
  showWalletList s = true /\
  connectionError s = Some t /\ t <> "".
Proof.
  rewrite <- truthy_Some. unfold render.
  destruct (isConnected (walletState s)), (showTitle pres),
    (showDescription pres), (isDropdownLayout props), (showWalletList s);
    in_view; (split; intros H; take_apart; try done);
    first
      [ by repeat split; auto
      | match goal with
        | Ht : truthy (connectionError s) = Some t |- _ =>
            assert (exists t0, ErrorBanner t = ErrorBanner t0 /\
                               truthy (connectionError s) = Some t0)
              by (by exists t);
            tauto
        end ].
Qed.

(** X21.  Every Connect and Close button that is rendered is disabled
    exactly while [isConnecting]; the Connect button reads "Connecting..."
    exactly then; the "Connecting to ..." note is rendered only then. *)
Theorem render_disabled_while_connecting (props : Props)
    (pres : Presentation) (s : State) :
  let view := render props pres s in
  (forall label disabled,
     In (ConnectButton label disabled) view ->
     disabled = isConnecting s /\
     (label = "Connecting..." <-> isConnecting s = true)) /\
  (forall disabled,
     In (CloseButton disabled) view -> disabled = isConnecting s) /\
  (forall w,
     In (ConnectingNote w) view -> isConnecting s = true).
Proof.
  intros view; subst view. unfold render.
  destruct (isConnected (walletState s)), (showTitle pres),
    (showDescription pres), (isDropdownLayout props), (showWalletList s);
    (split; [| split]); intros *; in_view; intros H; take_apart;
    try done;
    (destruct (isConnecting s);
     (split; [done |]); split; intros Hx; first [done | discriminate Hx]).
Qed.

(** ** The imperative handle *)



(** ** The flags between turns *)

Lemma handle_state {X} (e : Eff X) (m : Machine) :
  state (handle e m).2 =
  match stateStep e with
  | Some g => g (state m)
  | None => state m
  end.
Proof. by destruct e. Qed.

Lemma advance_Segments (I : State -> Prop) {A} (p : Proc A)
    (f : State -> State) (m : Machine) (s0 : State) :
  Segments I p f ->
  I s0 ->
  state m = f s0 ->
  I (state (advance p m).2) /\ SegmentsPaused I (advance p m).1.
Proof.
  revert f m. induction p as [a | e | X e k IH]; intros f m Hp H0 Hm.
  - cbn. rewrite Hm. auto.
  - cbn. rewrite Hm. auto.
  - cbn [Segments advance] in *.
    destruct (stateStep e) as [g |] eqn:Hstep.
    + assert (Hs : suspends e = false) by (by destruct e).
      rewrite Hs. eapply IH; [apply Hp | exact H0 |].
      by rewrite handle_state, Hstep, Hm.
    + destruct (suspends e) eqn:Hs.
      * destruct Hp as [Hf Hk]. cbn. rewrite Hm. auto.
      * eapply IH; [apply Hp | exact H0 |].
        by rewrite handle_state, Hstep.
Qed.

Lemma resume_Segments (I : State -> Prop) {A} (t : Paused A) (m : Machine) :
  SegmentsPaused I t ->
  I (state m) ->
  I (state (resume t m).2) /\ SegmentsPaused I (resume t m).1.
Proof.
  destruct t as [r | X e k]; [by cbn |].
  intros [Hs Hk] Hm. cbn [resume].
  eapply (advance_Segments I _ (fun s => s) _ (state m));
    [apply Hk | exact Hm |].
  rewrite handle_state. by destruct e.
Qed.

(** Walk the segments of a handler. *)
Ltac segments :=
  repeat first
    [ progress cbn [Segments stateStep suspends
                    bind tryCatch tryFinally mbind Proc_bind perform await
                    sleep rewardAddressLoop reEnable showErrorOnce
                    callShowError handleSuccessfulConnect
                    Nat.ltb Nat.leb]
    | progress intros
    | match goal with
      | |- _ /\ _ => split
      | |- context [if ?b then _ else _] => destruct b
      | |- context [match ?x with Fulfilled _ => _ | Rejected _ => _ end] =>
          destruct x
      end ].

Ltac flags :=
  match goal with
  | H : flagsConsistent _ |- flagsConsistent _ =>
      destruct H as [H1 H2]; split; cbn; intros Hx;
      first [ done | by inversion Hx | by apply H1 | by apply H2 ]
  end.

Lemma flagsConsistent_handler (props : Props) (c : Command) :
  Segments flagsConsistent (handler props c) (fun s => s).
Proof.
  destruct c; cbn [handler].
  - unfold openWalletList. segments; flags.
  - unfold closeWalletList. segments; flags.
  - unfold onConnectWallet. segments; flags.
  - unfold onConnectError. segments; flags.
  - unfold handleDisconnect. segments; flags.
  - unfold handleClickOutside. segments; flags.
Qed.

Lemma mount_flagsConsistent (props : Props) :
  flagsConsistent (initialState props).
Proof. split; cbn; [by inversion 1 | done]. Qed.

(** The invariant of the event loop, for the flags. *)
Lemma reachable_flagsConsistent (props : Props) (w : World) (sys : System) :
  reachable props w sys ->
  flagsConsistent (state (machine sys)) /\
  Forall (SegmentsPaused flagsConsistent) (tasks sys).
Proof.
  unfold reachable. revert sys. apply rtc_ind_r.
  - split; [apply mount_flagsConsistent | constructor].
  - intros sys sys' _ Hturn [Hm Ht].
    destruct Hturn as [c sys | i sys | w' sys].
    + destruct (advance_Segments flagsConsistent (handler props c)
                  (fun s => s) (machine sys) (state (machine sys))
                  (flagsConsistent_handler props c) Hm eq_refl)
        as [Hm' Hp].
      split; [exact Hm' |]. cbn. apply Forall_app. split; [done |].
      by constructor.
    + unfold wake. destruct (tasks sys !! i) as [t |] eqn:Hi; [| by split].
      destruct (resume_Segments flagsConsistent t (machine sys)
                  (proj1 (Forall_lookup _ _) Ht i t Hi) Hm) as [Hm' Hp].
      split; [exact Hm' |]. cbn. by apply Forall_insert.
    + by split.
Qed.

(** X23.  Between two turns of the event loop, a pending wallet goes
    with [isConnecting], [isConnecting] goes with an empty
    [connectionError], and so no view shows the error banner and the
    "Connecting to ..." note together. *)
Theorem flags_between_turns (props : Props) (pres : Presentation)
    (w : World) (sys : System) :
  reachable props w sys ->
  let s := state (machine sys) in
  (is_Some (pendingWallet s) -> isConnecting s = true) /\
  (isConnecting s = true -> connectionError s = None) /\
  (forall t note,
     In (ErrorBanner t) (render props pres s) ->
     In (ConnectingNote note) (render props pres s) -> False).
Proof.
  intros Hreach s; subst s.
  destruct (reachable_flagsConsistent props w sys Hreach) as [[H1 H2] _].
  split; [exact H1 |]. split; [exact H2 |].
  intros t note Hbanner Hnote.
  apply render_error_banner_aux in Hbanner.
  apply render_connecting_note_aux in Hnote.
  rewrite (H2 Hnote) in Hbanner. done.
Qed.

Lemma flags_between_turns_witness :
  let s := state (machine (wake 0 Scenario.selecting)) in
  (is_Some (pendingWallet s) -> isConnecting s = true) /\
  (isConnecting s = true -> connectionError s = None) /\
  (forall t note,
     In (ErrorBanner t) (render Fixture.hostProps Scenario.titled s) ->
     In (ConnectingNote note) (render Fixture.hostProps Scenario.titled s) ->
     False).
Proof.
  apply (flags_between_turns Fixture.hostProps Scenario.titled
           Fixture.twoWallets).
  unfold reachable, Scenario.selecting.
  eapply rtc_r; [| apply turn_resume].
  eapply rtc_r; [| apply turn_command].
  apply rtc_refl.
Defined.
